(** * keep_alive.py: a shallow embedding and its verified properties

    The script asserts the Windows "stay awake" execution state, optionally
    nudges the mouse pointer, sleeps for the configured interval and repeats
    until a signal arrives.  Everything it does is an effect on the host
    (kernel32 / user32 calls, console output, timed suspension, signal
    handling), so the embedding is a small state-and-exception monad over a
    [world] that records the chronological trace of those effects.  The
    answers of the host are read from an oracle ([host]) indexed by a logical
    clock that advances by one at every effect. *)

From Stdlib Require Import ZArith List String Ascii Bool Lia QArith DecimalString Arith.
Import ListNotations.
Local Open Scope Z_scope.
Local Open Scope string_scope.

(** ** Constants of the script (lines 18-21) *)

Definition ES_CONTINUOUS : Z := 0x80000000.
Definition ES_SYSTEM_REQUIRED : Z := 0x00000001.
Definition ES_DISPLAY_REQUIRED : Z := 0x00000002.

(** ** Observable effects *)

(** The functions of the script whose invocations are counted. *)
Inductive fname : Set :=
| fn_prevent_sleep
| fn_allow_sleep
| fn_nudge_mouse
| fn_on_exit.

Inductive signum : Set := SIGINT | SIGTERM.

(** One entry of the trace.  [ECall f] is the entry into function [f] of the
    script, [ESignalInstall s] is [signal.signal(s, on_exit)], [ESignal s] is
    the delivery of signal [s] to the process; the others are the library
    and foreign calls of the script with the arguments they were given. *)
Inductive event : Type :=
| ECall (f : fname)
| ESignalInstall (s : signum)
| ESetThreadExecutionState (flags : Z)
| EGetCursorPos
| ESetCursorPos (x y : Z)
| ETimeSleep (secs : Q)
| EPrint (line : string)
| ESignal (s : signum).

(** ** The host *)

(** What a foreign call through [ctypes.windll] does: it returns an integer,
    or the call raises a Python exception of class [cls] whose [str] is
    [msg] (for instance AttributeError where [windll] does not exist). *)
Inductive reply : Type :=
| Returns (v : Z)
| Throws (cls msg : string).

(** The environment of one process run.  [kernel32 t] answers the call of
    SetThreadExecutionState made at clock [t] and [user32 t] the call of
    GetCursorPos or SetCursorPos made at clock [t]; [pointer_input t] is a
    pointer movement by the user (or another program) that lands just before
    the effect at clock [t]; [signal_at] is the single signal the process
    receives, with the clock value at which it is delivered; [sleep_limit]
    is the largest number of seconds [time.sleep] accepts on the platform
    (beyond it [time.sleep] raises OverflowError). *)
Record host : Type := {
  kernel32 : nat -> reply;
  user32 : nat -> reply;
  pointer_input : nat -> option (Z * Z);
  signal_at : option (nat * signum);
  sleep_limit : Z
}.

(** The state the script acts on. *)
Record world : Type := {
  clock : nat;
  cursor : Z * Z;
  sigint_handled : bool;
  sigterm_handled : bool;
  trace : list event
}.

Definition boot (p : Z * Z) : world :=
  {| clock := 0; cursor := p; sigint_handled := false;
     sigterm_handled := false; trace := [] |}.

Definition handled (s : signum) (w : world) : bool :=
  match s with
  | SIGINT => sigint_handled w
  | SIGTERM => sigterm_handled w
  end.

(** ** Python control flow as a monad *)

(** Python exceptions the script can meet.  [SystemExit] and
    [KeyboardInterrupt] derive from BaseException only; [Exception cls msg]
    stands for every class below [Exception]. *)
Inductive exn : Type :=
| SystemExit (code : Z)
| KeyboardInterrupt
| Exception (cls msg : string).

(** How a computation stops without a value: a raised exception, the process
    killed by a signal with default disposition, or the observation window
    of the [while True] loop used up. *)
Inductive stop : Type :=
| Raised (e : exn)
| Killed (s : signum)
| OutOfFuel.

Inductive res (A : Type) : Type :=
| Ok (a : A)
| Stop (s : stop).
Arguments Ok {A} a.
Arguments Stop {A} s.

Definition M (A : Type) : Type := world -> res A * world.

Definition ret {A} (a : A) : M A := fun w => (Ok a, w).

Definition bind {A B} (m : M A) (f : A -> M B) : M B := fun w =>
  match m w with
  | (Ok a, w') => f a w'
  | (Stop s, w') => (Stop s, w')
  end.

Definition raise {A} (e : exn) : M A := fun w => (Stop (Raised e), w).

Declare Scope py_scope.
Delimit Scope py_scope with py.
Notation "x <- m ;; k" := (bind m (fun x => k))
  (at level 61, m at next level, right associativity) : py_scope.
Notation "m ;; k" := (bind m (fun _ => k))
  (at level 61, right associativity) : py_scope.
Local Open Scope py_scope.

(** [try: body except Exception as e: handler(str(e))].  Only classes below
    [Exception] are caught. *)
Definition try_except {A} (body : M A) (handler : string -> M A) : M A :=
  fun w =>
  match body w with
  | (Stop (Raised (Exception _ msg)), w') => handler msg w'
  | other => other
  end.

(** [try: body finally: fin].  The [finally] clause runs on every way out of
    [body] that Python sees (a value or an exception); an exception raised
    by [fin] replaces the pending one.  A killed process runs nothing. *)
Definition try_finally {A} (body : M A) (fin : M unit) : M A := fun w =>
  match body w with
  | (Ok a, w') =>
      match fin w' with
      | (Ok _, w'') => (Ok a, w'')
      | (Stop s, w'') => (Stop s, w'')
      end
  | (Stop (Raised e), w') =>
      match fin w' with
      | (Ok _, w'') => (Stop (Raised e), w'')
      | (Stop s, w'') => (Stop s, w'')
      end
  | (Stop s, w') => (Stop s, w')
  end.

(** [while True: body], observed for [fuel] iterations. *)
Fixpoint while_true (fuel : nat) (body : M unit) : M unit :=
  match fuel with
  | O => fun w => (Stop OutOfFuel, w)
  | S n => body ;; while_true n body
  end.

Definition sys_exit {A} (code : Z) : M A := raise (SystemExit code).

Definition get_cursor : M (Z * Z) := fun w => (Ok (cursor w), w).

Definition set_cursor (p : Z * Z) : M unit := fun w =>
  (Ok tt, {| clock := clock w; cursor := p;
             sigint_handled := sigint_handled w;
             sigterm_handled := sigterm_handled w; trace := trace w |}).

Definition install (s : signum) : M unit := fun w =>
  (Ok tt, {| clock := clock w; cursor := cursor w;
             sigint_handled := match s with SIGINT => true | SIGTERM => sigint_handled w end;
             sigterm_handled := match s with SIGTERM => true | SIGINT => sigterm_handled w end;
             trace := trace w |}).

(** ** C integer conversions of ctypes on Windows *)

(** A 32-bit two's complement value: [c_long] fields of [POINT], and the
    C [int] a Python integer argument is passed as. *)
Definition wrap32 (z : Z) : Z := (z + 2 ^ 31) mod 2 ^ 32 - 2 ^ 31.
Definition c_long (z : Z) : Z := wrap32 z.
Definition c_int (z : Z) : Z := wrap32 z.
Definition in_c_long (z : Z) : Prop := - 2 ^ 31 <= z < 2 ^ 31.

(** [class POINT(ctypes.Structure)] with fields x, y. *)
Record POINT : Type := { pt_x : Z; pt_y : Z }.

(** The outcome of a foreign call as Python sees it. *)
Definition os_result (r : reply) : M Z :=
  match r with
  | Returns v => ret v
  | Throws cls msg => raise (Exception cls msg)
  end.

(** ** Message texts *)

Definition nl : string := String (ascii_of_nat 10) EmptyString.
Definition msg_error : string :=
  "[ERROR] SetThreadExecutionState failed. Are you on Windows?".
Definition msg_warn (e : string) : string := "[WARN] Mouse nudge failed: " ++ e.
Definition msg_restoring : string := nl ++ "[INFO] Restoring normal sleep settings...".
Definition msg_active : string := "[INFO] Keep-alive active. Press Ctrl+C to stop.".
Definition str_of_int (z : Z) : string := NilZero.string_of_int (Z.to_int z).
Definition msg_mouse (interval : Z) : string :=
  "[INFO] Mouse nudge enabled every " ++ str_of_int interval ++ "s.".

(** ** What [time.sleep] refuses *)

(** The largest whole number of seconds that fits a signed 64-bit count of
    nanoseconds. *)
Definition PY_TIME_MAX_SECONDS : Z := 9223372036.

(** The exception [time.sleep] raises for a negative length. *)
Definition negative_sleep : exn :=
  Exception "ValueError" "sleep length must be non-negative".

(** The exception [time.sleep] raises for a length it cannot convert. *)
Definition unconvertible_sleep : exn :=
  Exception "OverflowError" "timestamp too large to convert to C _PyTime_t".

(** The exception [time.sleep] raises for the negative length [i]. *)
Definition refused_sleep (i : Z) : exn :=
  if Z.leb (- PY_TIME_MAX_SECONDS) i then negative_sleep else unconvertible_sleep.

(** ** One effect *)

Section Host.
Variable h : host.

(** The effect [e] happens at the current clock value: a pending pointer
    input lands, [e] is appended to the trace, the clock advances.  The
    value is the clock at which [e] happened. *)
Definition raw (e : event) : M nat := fun w =>
  (Ok (clock w),
   {| clock := S (clock w);
      cursor := match pointer_input h (clock w) with
                | Some p => p
                | None => cursor w
                end;
      sigint_handled := sigint_handled w;
      sigterm_handled := sigterm_handled w;
      trace := trace w ++ [e] |}).


(** ** The functions of the script, over the way one effect is performed *)

Section Script.
Variable tick : event -> M nat.

Definition call (f : fname) : M unit := _ <- tick (ECall f) ;; ret tt.

Definition print (line : string) : M unit := _ <- tick (EPrint line) ;; ret tt.

Definition SetThreadExecutionState (flags : Z) : M Z :=
  t <- tick (ESetThreadExecutionState flags) ;; os_result (kernel32 h t).

(** [GetCursorPos(byref(pt))] fills [pt] when the call succeeds (non-zero). *)
Definition GetCursorPos (pt : POINT) : M POINT :=
  t <- tick EGetCursorPos ;;
  v <- os_result (user32 h t) ;;
  if Z.eqb v 0 then ret pt
  else c <- get_cursor ;; ret {| pt_x := c_long (fst c); pt_y := c_long (snd c) |}.

(** [SetCursorPos(x, y)] moves the pointer when the call succeeds. *)
Definition SetCursorPos (x y : Z) : M unit :=
  t <- tick (ESetCursorPos x y) ;;
  v <- os_result (user32 h t) ;;
  if Z.eqb v 0 then ret tt else set_cursor (c_int x, c_int y).

(** [time.sleep(secs)].  CPython first converts the length to a signed
    64-bit count of nanoseconds (OverflowError when it does not fit: for the
    whole numbers of seconds the script passes, below
    [- PY_TIME_MAX_SECONDS]), then refuses a negative
    length (ValueError), then sleeps unless the length is beyond what the
    platform accepts, [sleep_limit] (OverflowError on Windows, the platform
    of the script; the bound stands for the conversion of a positive length
    too). *)
Definition time_sleep (secs : Q) : M unit :=
  _ <- tick (ETimeSleep secs) ;;
  if Qle_bool (inject_Z (- PY_TIME_MAX_SECONDS)) secs then
    if Qle_bool 0 secs then
      if Qle_bool secs (inject_Z (sleep_limit h)) then ret tt
      else raise unconvertible_sleep
    else raise negative_sleep
  else raise unconvertible_sleep.

(** Lines 23-30. *)
Definition prevent_sleep : M unit :=
  call fn_prevent_sleep ;;
  result <- SetThreadExecutionState
              (Z.lor (Z.lor ES_CONTINUOUS ES_SYSTEM_REQUIRED) ES_DISPLAY_REQUIRED) ;;
  if Z.eqb result 0 then print msg_error ;; sys_exit 1 else ret tt.

(** Lines 32-34. *)
Definition allow_sleep : M unit :=
  call fn_allow_sleep ;;
  _ <- SetThreadExecutionState ES_CONTINUOUS ;;
  ret tt.

(** Lines 43-47: the body of the [try] in [nudge_mouse]. *)
Definition nudge_body : M unit :=
  pt <- GetCursorPos {| pt_x := 0; pt_y := 0 |} ;;
  SetCursorPos (pt_x pt + 1) (pt_y pt) ;;
  time_sleep (5 # 100) ;;
  SetCursorPos (pt_x pt) (pt_y pt).

(** Lines 36-49. *)
Definition nudge_mouse : M unit :=
  call fn_nudge_mouse ;;
  try_except nudge_body (fun e => print (msg_warn e)).

Definition signal_signal (s : signum) : M unit :=
  _ <- tick (ESignalInstall s) ;; install s.

End Script.

(** ** Signals *)

(** Lines 60-63.  The handler runs to its end without a further signal (the
    process receives one signal), so its effects are [raw]. *)
Definition on_exit {A} (sig : signum) : M A :=
  call raw fn_on_exit ;;
  print raw msg_restoring ;;
  allow_sleep raw ;;
  sys_exit 0.

(** Delivery of signal [s]: the installed handler runs; with the default
    disposition SIGINT raises KeyboardInterrupt and SIGTERM ends the
    process. *)
Definition deliver {A} (s : signum) : M A := fun w =>
  match raw (ESignal s) w with
  | (_, w') =>
      if handled s w' then on_exit s w'
      else match s with
           | SIGINT => (Stop (Raised KeyboardInterrupt), w')
           | SIGTERM => (Stop (Killed SIGTERM), w')
           end
  end.

(** An effect of the main program: when the signal is due at the current
    clock value it is delivered in place of the effect. *)
Definition guard (e : event) : M nat := fun w =>
  match signal_at h with
  | Some (t, s) => if Nat.eqb t (clock w) then deliver s w else raw e w
  | None => raw e w
  end.

(** ** The main program (lines 51-83) *)

(** The parsed command line (lines 52-57): [--mouse] is a switch and
    [--interval] is read with [type=int], so it is any integer; [main] makes
    no further check of it. *)
Record args : Type := { mouse : bool; interval : Z }.

Definition default_args : args := {| mouse := false; interval := 60 |}.

Definition cycle (a : args) : M unit :=
  prevent_sleep guard ;;
  (if mouse a then nudge_mouse guard else ret tt) ;;
  time_sleep guard (inject_Z (interval a)).

Definition startup (a : args) : M unit :=
  signal_signal guard SIGINT ;;
  signal_signal guard SIGTERM ;;
  prevent_sleep guard ;;
  print guard msg_active ;;
  (if mouse a then print guard (msg_mouse (interval a)) else ret tt).

(** Lines 73-83: the loop inside its [try] ... [finally]. *)
Definition running (a : args) (fuel : nat) : M unit :=
  try_finally (while_true fuel (cycle a)) (allow_sleep guard).

(** Lines 59-83: [main] from the parsed arguments on (the exits of
    [parse_args] itself are those of [entry] below). *)
Definition main (a : args) (fuel : nat) : M unit :=
  startup a ;; running a fuel.

End Host.

Local Close Scope string_scope.

(** ** Running the process *)

Definition run (h : host) (a : args) (p : Z * Z) (fuel : nat) : res unit * world :=
  main h a fuel (boot p).

(** How the process ended, as the parent sees it. *)
Inductive termination : Type :=
| ExitCode (c : Z)
| BySignal (s : signum).

Definition termination_of (r : res unit) : option termination :=
  match r with
  | Ok _ => Some (ExitCode 0)
  | Stop (Raised (SystemExit c)) => Some (ExitCode c)
  | Stop (Raised (Exception _ _)) => Some (ExitCode 1)
  | Stop (Raised KeyboardInterrupt) => Some (BySignal SIGINT)
  | Stop (Killed s) => Some (BySignal s)
  | Stop OutOfFuel => None
  end.

(** ** Reading a trace *)

Definition is_call (f : fname) (e : event) : bool :=
  match e, f with
  | ECall fn_prevent_sleep, fn_prevent_sleep => true
  | ECall fn_allow_sleep, fn_allow_sleep => true
  | ECall fn_nudge_mouse, fn_nudge_mouse => true
  | ECall fn_on_exit, fn_on_exit => true
  | _, _ => false
  end.

Definition calls (f : fname) (tr : list event) : nat :=
  List.length (List.filter (is_call f) tr).

Definition is_print (e : event) : bool :=
  match e with EPrint _ => true | _ => false end.

Definition console (tr : list event) : list event := List.filter is_print tr.

(** A quiet host: no signal, every foreign call succeeds. *)
Definition quiet_host (limit : Z) : host :=
  {| kernel32 := fun _ => Returns 1; user32 := fun _ => Returns 1;
     pointer_input := fun _ => None;
     signal_at := None; sleep_limit := limit |}.


(** ** Vocabulary of the statements *)

(** The signal that is due at the current clock value, if any. *)
Definition due (h : host) (w : world) : option signum :=
  match signal_at h with
  | Some (t, s) => if Nat.eqb t (clock w) then Some s else None
  | None => None
  end.

(** No signal is delivered before clock [c]. *)
Definition signal_not_before (h : host) (c : nat) : Prop :=
  forall t s, signal_at h = Some (t, s) -> (c <= t)%nat.

(** Hoare triples over the monad: from a world satisfying [P], the result
    and the final world of [m] satisfy [Q]. *)
Definition hoare {A} (P : world -> Prop) (m : M A) (Q : res A -> world -> Prop) : Prop :=
  forall w, P w -> Q (fst (m w)) (snd (m w)).

(** The flag word [prevent_sleep] passes. *)
Definition AWAKE : Z := Z.lor (Z.lor ES_CONTINUOUS ES_SYSTEM_REQUIRED) ES_DISPLAY_REQUIRED.

(** The trace of a start-up in which the first assertion is accepted. *)
Definition startup_trace (a : args) : list event :=
  [ESignalInstall SIGINT; ESignalInstall SIGTERM;
   ECall fn_prevent_sleep; ESetThreadExecutionState AWAKE;
   EPrint msg_active]
  ++ (if mouse a then [EPrint (msg_mouse (interval a))] else []).

(** The trace of a start-up in which the first assertion is refused. *)
Definition failed_startup_trace : list event :=
  [ESignalInstall SIGINT; ESignalInstall SIGTERM;
   ECall fn_prevent_sleep; ESetThreadExecutionState AWAKE;
   EPrint msg_error].

(** The effects the main program performs itself, outside the signal
    handler and the [finally] clause: those every run performs, and those
    of the nudge. *)
Definition basic_event (e : event) : Prop :=
  match e with
  | ECall fn_prevent_sleep => True
  | ESignalInstall _ => True
  | ESetThreadExecutionState flags => flags = AWAKE
  | ETimeSleep _ => True
  | EPrint _ => True
  | _ => False
  end.

Definition pointer_event (e : event) : Prop :=
  match e with
  | EGetCursorPos => True
  | ESetCursorPos _ _ => True
  | _ => False
  end.

Definition script_event (a : args) (e : event) : Prop :=
  basic_event e \/ (mouse a = true /\ (pointer_event e \/ e = ECall fn_nudge_mouse)).

(** What the signal handler appends to the trace after the delivery. *)
Definition handler_events : list event :=
  [ECall fn_on_exit; EPrint msg_restoring;
   ECall fn_allow_sleep; ESetThreadExecutionState ES_CONTINUOUS].

(** The effects of the release on the way out. *)
Definition exit_event (e : event) : Prop :=
  match e with
  | ESignal _ => True
  | ECall fn_on_exit => True
  | ECall fn_allow_sleep => True
  | EPrint _ => True
  | ESetThreadExecutionState flags => flags = ES_CONTINUOUS
  | _ => False
  end.

Definition run_event (a : args) (e : event) : Prop :=
  script_event a e \/ exit_event e.

(** An invariant of the program on host [h]: [I] holds of the worlds the
    program runs through, [S st] of the worlds in which it stops with [st],
    as long as it performs effects of [E] only. *)
Record invariant (h : host) (I : world -> Prop) (S : stop -> world -> Prop)
       (E : event -> Prop) : Prop := {
  i_raw : forall e w, E e -> due h w = None -> I w -> I (snd (raw h e w));
  i_deliver : forall s w st, due h w = Some s -> I w ->
                fst (deliver (A := nat) h s w) = Stop st ->
                S st (snd (deliver (A := nat) h s w));
  i_cursor : forall p w, I w -> I (snd (set_cursor p w));
  i_install : forall s w, I w -> I (snd (install s w));
  i_exc : forall cls msg w, I w -> S (Raised (Exception cls msg)) w;
  i_caught : forall cls msg w, S (Raised (Exception cls msg)) w -> I w
}.

Definition inv {A} (I : world -> Prop) (S : stop -> world -> Prop) (m : M A) : Prop :=
  hoare I m (fun r w => match r with Ok _ => I w | Stop st => S st w end).

Definition winv {A} (I : world -> Prop) (m : M A) : Prop :=
  hoare I m (fun _ w => I w).

(** Every call answered by [r] succeeds (returns non-zero). *)
Definition accepts (r : nat -> reply) : Prop :=
  forall t, exists v, r t = Returns v /\ v <> 0.

(** The effects inside a nudge after its entry: pointer calls, the pause of
    0.05 s and, after an exception, the warning. *)
Definition nudge_inner (e : event) : Prop :=
  match e with
  | EGetCursorPos => True
  | ESetCursorPos _ _ => True
  | ETimeSleep d => d = 5 # 100
  | EPrint s => exists msg, s = msg_warn msg
  | _ => False
  end.

(** What lies between the reassertion and the sleep of one cycle. *)
Definition nudge_part (a : args) (mid : list event) : Prop :=
  if mouse a then exists tl, mid = ECall fn_nudge_mouse :: tl /\ Forall nudge_inner tl
  else mid = [].

(** The trace of one loop cycle: reassert, then nudge if enabled, then sleep
    for the interval. *)
Definition cycle_shape (a : args) (c : list event) : Prop :=
  exists mid,
    c = [ECall fn_prevent_sleep; ESetThreadExecutionState AWAKE]
          ++ mid ++ [ETimeSleep (inject_Z (interval a))]
    /\ nudge_part a mid.

(** The trace of [n] cycles in a row. *)
Inductive cycles (a : args) : nat -> list event -> Prop :=
| cycles_O : cycles a 0 []
| cycles_S (n : nat) (c tr : list event) :
    cycle_shape a c -> cycles a n tr -> cycles a (S n) (c ++ tr).

(** The world after effect [e]. *)
Definition after (h : host) (e : event) (w : world) : world := snd (raw h e w).

Definition installed (w : world) : Prop :=
  sigint_handled w = true /\ sigterm_handled w = true.

(** A host on which every user32 call raises. *)
Definition headless_host (limit : Z) : host :=
  {| kernel32 := fun _ => Returns 1;
     user32 := fun _ => Throws "OSError" "no display";
     pointer_input := fun _ => None;
     signal_at := None; sleep_limit := limit |}.

(** A host that refuses every execution-state request (the call returns 0). *)
Definition refusing_host (limit : Z) : host :=
  {| kernel32 := fun _ => Returns 0; user32 := fun _ => Returns 1;
     pointer_input := fun _ => None;
     signal_at := None; sleep_limit := limit |}.

(** The signal of the run has been delivered. *)
Definition signal_passed (h : host) (w : world) : Prop :=
  exists t s, signal_at h = Some (t, s) /\ (t < clock w)%nat.

(** The handler has run at most once, and only upon the signal. *)
Definition handler_once (h : host) (w : world) : Prop :=
  calls fn_on_exit (trace w) = 0%nat \/
  (calls fn_on_exit (trace w) = 1%nat /\ signal_passed h w).

(** [allow_sleep] has been called once by each run of the handler and [d]
    more times. *)
Definition release_count (h : host) (d : nat) (w : world) : Prop :=
  calls fn_allow_sleep (trace w) = (calls fn_on_exit (trace w) + d)%nat /\
  handler_once h w.

(** The program stopped by an exception other than KeyboardInterrupt. *)
Definition stopped_by_python (st : stop) : Prop :=
  match st with
  | Raised KeyboardInterrupt => False
  | Raised _ => True
  | Killed _ => False
  | OutOfFuel => False
  end.

(** Every SetThreadExecutionState call made before clock [t] succeeds. *)
Definition accepts_before (h : host) (t : nat) : Prop :=
  forall t', (t' < t)%nat -> exists v, kernel32 h t' = Returns v /\ v <> 0.

(** Every SetThreadExecutionState call made from clock [t] on returns (any
    value, 0 included) rather than raising. *)
Definition answers_from (h : host) (t : nat) : Prop :=
  forall t', (t <= t')%nat -> exists v, kernel32 h t' = Returns v.

(** The program runs with its handlers installed and the signal, due at
    clock [t], still ahead; [c] bounds the clock from below. *)
Definition waiting (t c : nat) (w : world) : Prop :=
  (c <= clock w <= t)%nat /\ installed w /\
  calls fn_allow_sleep (trace w) = 0%nat /\ calls fn_on_exit (trace w) = 0%nat.

(** The handler has just run upon signal [s], due at clock [t]. *)
Definition handled_signal (t : nat) (s : signum) (w : world) : Prop :=
  (t < clock w)%nat /\ installed w /\
  exists pre, trace w = pre ++ ESignal s :: handler_events /\
              calls fn_allow_sleep pre = 0%nat /\ calls fn_on_exit pre = 0%nat.

Definition stopped_waiting (t c : nat) (s : signum) (st : stop) (w : world) : Prop :=
  (st = Raised (SystemExit 0) /\ handled_signal t s w) \/
  ((exists cls msg, st = Raised (Exception cls msg)) /\ waiting t c w).

(** Before the signal the only way to stop is the handler's exit. *)
Definition calm_post {A} (t c : nat) (s : signum) (r : res A) (w : world) : Prop :=
  match r with
  | Ok _ => waiting t c w
  | Stop st => st = Raised (SystemExit 0) /\ handled_signal t s w
  end.

(** A host whose only event is signal [s] at clock [t]. *)
Definition signalled_host (t : nat) (s : signum) (limit : Z) : host :=
  {| kernel32 := fun _ => Returns 1; user32 := fun _ => Returns 1;
     pointer_input := fun _ => None;
     signal_at := Some (t, s); sleep_limit := limit |}.

(** A host on which the release fails: SetThreadExecutionState succeeds
    before clock [t], returns 0 from then on, and signal [s] arrives at [t]. *)
Definition failing_release_host (t : nat) (s : signum) (limit : Z) : host :=
  {| kernel32 := fun t' => if Nat.ltb t' t then Returns 1 else Returns 0;
     user32 := fun _ => Returns 1;
     pointer_input := fun _ => None;
     signal_at := Some (t, s); sleep_limit := limit |}.

(** ** Further vocabulary *)

(** The process ended the way Python ends it (an exit status), not by the
    signal itself. *)
Definition ends_by_signal (r : res unit) : Prop :=
  exists s, termination_of r = Some (BySignal s).

(** A host on which SetThreadExecutionState raises (no such entry point). *)
Definition raising_host (limit : Z) : host :=
  {| kernel32 := fun _ => Throws "AttributeError" "function 'SetThreadExecutionState' not found";
     user32 := fun _ => Returns 1;
     pointer_input := fun _ => None;
     signal_at := None; sleep_limit := limit |}.

(** A host whose user32 call at clock [t] fails quietly (returns 0). *)
Definition quiet_failure_host (t : nat) (limit : Z) : host :=
  {| kernel32 := fun _ => Returns 1;
     user32 := fun t' => if Nat.eqb t' t then Returns 0 else Returns 1;
     pointer_input := fun _ => None;
     signal_at := None; sleep_limit := limit |}.

(** A host on which the user drags the pointer to [q] at every clock from
    [t] on. *)
Definition moving_pointer_host (t : nat) (q : Z * Z) (limit : Z) : host :=
  {| kernel32 := fun _ => Returns 1; user32 := fun _ => Returns 1;
     pointer_input := fun t' => if Nat.leb t t' then Some q else None;
     signal_at := None; sleep_limit := limit |}.

(** Why the program may stop with [st]: the script itself only ever calls
    [sys.exit(1)]; [sys.exit(0)] is the handler's, after its notice. *)
Definition exit_reason (st : stop) (w : world) : Prop :=
  match st with
  | Raised (SystemExit c) =>
      c = 1 \/ (c = 0 /\ In (ECall fn_on_exit) (trace w) /\
                In (EPrint msg_restoring) (trace w))
  | _ => True
  end.

(** The execution state is not asserted again after a release: the trace
    is a part without any release call followed by a part without any
    assertion call. *)
Definition released_for_good (w : world) : Prop :=
  exists pre post,
    trace w = pre ++ post /\
    Forall (fun e => e <> ESetThreadExecutionState ES_CONTINUOUS) pre /\
    Forall (fun e => e <> ESetThreadExecutionState AWAKE) post.

Definition unreleased (w : world) : Prop :=
  Forall (fun e => e <> ESetThreadExecutionState ES_CONTINUOUS) (trace w).

Definition is_exception (st : stop) : Prop :=
  exists cls msg, st = Raised (Exception cls msg).

(** SetThreadExecutionState never raises on this host (it may return 0). *)
Definition kernel32_returns (h : host) : Prop :=
  forall t, exists v, kernel32 h t = Returns v.

(** A host on which SetThreadExecutionState works until clock [t] and
    raises from then on, and signal [s] arrives at clock [t]. *)
Definition lost_signal_host (t : nat) (s : signum) (limit : Z) : host :=
  {| kernel32 := fun t' => if Nat.ltb t' t then Returns 1
                           else Throws "OSError" "release failed";
     user32 := fun _ => Returns 1;
     pointer_input := fun _ => None;
     signal_at := Some (t, s); sleep_limit := limit |}.

(** The state in which the first nudge of a run starts. *)
Definition first_nudge_entry (h : host) (a : args) (p : Z * Z) : world :=
  snd (prevent_sleep h (guard h) (snd (startup h a (boot p)))).

(** Neither the handler nor [allow_sleep] has been entered, and no release
    call has been made. *)
Definition holding (w : world) : Prop :=
  calls fn_allow_sleep (trace w) = 0%nat /\ calls fn_on_exit (trace w) = 0%nat /\
  unreleased w.

Definition holding_event (e : event) : Prop :=
  e <> ECall fn_allow_sleep /\ e <> ECall fn_on_exit /\
  e <> ESetThreadExecutionState ES_CONTINUOUS.

(** ** The command line (lines 52-57) *)

(** What [parser.parse_args()] makes of the command line: the parsed
    switches; or, for [-h] and [--help], the help text followed by
    [sys.exit(0)]; or, for a command line the parser rejects (an unknown
    option, an [--interval] that is not an integer), the usage message
    followed by [sys.exit(2)].  What argparse writes is not part of the
    trace, and both exits happen before any handler is registered. *)
Inductive cmdline : Type :=
| Parsed (a : args)
| Help
| Rejected.

Definition parse_args (c : cmdline) : M args :=
  match c with
  | Parsed a => ret a
  | Help => sys_exit 0
  | Rejected => sys_exit 2
  end.

(** Lines 51-83 as a whole: [main()] as the last line of the file calls
    it. *)
Definition entry (h : host) (c : cmdline) (fuel : nat) : M unit :=
  a <- parse_args c ;; main h a fuel.

Definition process (h : host) (c : cmdline) (p : Z * Z) (fuel : nat) : res unit * world :=
  entry h c fuel (boot p).

(** * Proofs *)

(** ** The monad *)

Lemma hoare_ret {A} (P : world -> Prop) (a : A) (Q : res A -> world -> Prop) :
  (forall w, P w -> Q (Ok a) w) -> hoare P (ret a) Q.
Proof. intros H w Hw. apply H, Hw. Qed.

Lemma hoare_raise {A} (P : world -> Prop) (e : exn) (Q : res A -> world -> Prop) :
  (forall w, P w -> Q (Stop (Raised e)) w) -> hoare P (raise e) Q.
Proof. intros H w Hw. apply H, Hw. Qed.

Lemma hoare_bind {A B} (P : world -> Prop) (R : A -> world -> Prop)
      (m : M A) (f : A -> M B) (Q : res B -> world -> Prop) :
  hoare P m (fun r w => match r with Ok a => R a w | Stop s => Q (Stop s) w end) ->
  (forall a, hoare (R a) (f a) Q) ->
  hoare P (bind m f) Q.
Proof.
  intros Hm Hf w Hw. specialize (Hm w Hw). unfold bind.
  destruct (m w) as [[a|s] w']; cbn in *.
  - apply (Hf a w' Hm).
  - exact Hm.
Qed.

Lemma hoare_conseq {A} (P P' : world -> Prop) (m : M A) (Q Q' : res A -> world -> Prop) :
  (forall w, P' w -> P w) -> (forall r w, Q r w -> Q' r w) ->
  hoare P m Q -> hoare P' m Q'.
Proof. intros HP HQ H w Hw. apply HQ, H, HP, Hw. Qed.

Lemma hoare_try_except {A} (P : world -> Prop) (R : string -> world -> Prop)
      (body : M A) (handler : string -> M A) (Q : res A -> world -> Prop) :
  hoare P body (fun r w => match r with
                           | Stop (Raised (Exception _ msg)) => R msg w
                           | other => Q other w
                           end) ->
  (forall msg, hoare (R msg) (handler msg) Q) ->
  hoare P (try_except body handler) Q.
Proof.
  intros Hb Hh w Hw. specialize (Hb w Hw). unfold try_except.
  destruct (body w) as [[a|[[c| |cls msg]|s|]] w']; cbn in *; auto.
  apply (Hh msg w' Hb).
Qed.

Lemma hoare_while (I : world -> Prop) (body : M unit) (Q : res unit -> world -> Prop) (n : nat) :
  hoare I body (fun r w => match r with Ok _ => I w | Stop s => Q (Stop s) w end) ->
  (forall w, I w -> Q (Stop OutOfFuel) w) ->
  hoare I (while_true n body) Q.
Proof.
  intros Hb Hq. induction n as [|n IH]; cbn [while_true].
  - intros w Hw. apply Hq, Hw.
  - eapply hoare_bind with (R := fun _ => I).
    + exact Hb.
    + intros _. exact IH.
Qed.

(** ** Effects *)

Lemma guard_eq (h : host) (e : event) (w : world) :
  guard h e w = match due h w with Some s => deliver h s w | None => raw h e w end.
Proof.
  unfold guard, due. destruct (signal_at h) as [[t s]|]; [|reflexivity].
  destruct (Nat.eqb t (clock w)); reflexivity.
Qed.

Lemma due_before (h : host) (c : nat) (w : world) :
  signal_not_before h c -> (clock w < c)%nat -> due h w = None.
Proof.
  intros H Hc. unfold due. destruct (signal_at h) as [[t s]|] eqn:E; [|reflexivity].
  specialize (H t s E). destruct (Nat.eqb_spec t (clock w)); [lia|reflexivity].
Qed.

Lemma guard_before (h : host) (c : nat) (e : event) (w : world) :
  signal_not_before h c -> (clock w < c)%nat -> guard h e w = raw h e w.
Proof. intros H Hc. rewrite guard_eq, (due_before h c w H Hc). reflexivity. Qed.

Lemma AWAKE_value : AWAKE = 0x80000003.
Proof. reflexivity. Qed.

Lemma hoare_if {A} (P : world -> Prop) (b : bool) (m1 m2 : M A) (Q : res A -> world -> Prop) :
  (b = true -> hoare P m1 Q) -> (b = false -> hoare P m2 Q) ->
  hoare P (if b then m1 else m2) Q.
Proof. destruct b; auto. Qed.

(** What a delivery leaves behind. *)
Lemma deliver_trace {A} (h : host) (s : signum) (w : world) :
  trace (snd (deliver (A := A) h s w)) =
  trace w ++ ESignal s :: (if handled s w then handler_events else []).
Proof.
  unfold deliver, on_exit, allow_sleep, call, print, SetThreadExecutionState,
    bind, raw, handled. cbn.
  destruct s; cbn.
  - destruct (sigint_handled w); cbn.
    + destruct (kernel32 h _); cbn; rewrite <- !app_assoc; reflexivity.
    + reflexivity.
  - destruct (sigterm_handled w); cbn.
    + destruct (kernel32 h _); cbn; rewrite <- !app_assoc; reflexivity.
    + reflexivity.
Qed.

Lemma deliver_clock {A} (h : host) (s : signum) (w : world) :
  (clock w < clock (snd (deliver (A := A) h s w)))%nat.
Proof.
  unfold deliver, on_exit, allow_sleep, call, print, SetThreadExecutionState,
    bind, raw, handled. cbn.
  destruct s; cbn.
  - destruct (sigint_handled w); cbn; [destruct (kernel32 h _); cbn|]; lia.
  - destruct (sigterm_handled w); cbn; [destruct (kernel32 h _); cbn|]; lia.
Qed.

Lemma deliver_stops {A} (h : host) (s : signum) (w : world) :
  exists st, fst (deliver (A := A) h s w) = Stop st.
Proof.
  unfold deliver, on_exit, allow_sleep, call, print, SetThreadExecutionState,
    bind, raw, handled. cbn.
  destruct s; cbn.
  - destruct (sigint_handled w); cbn; [destruct (kernel32 h _); cbn|]; eauto.
  - destruct (sigterm_handled w); cbn; [destruct (kernel32 h _); cbn|]; eauto.
Qed.

Lemma hoare_guard (h : host) (P : world -> Prop) (e : event) (Q : res nat -> world -> Prop) :
  (forall w, P w -> due h w = None -> Q (Ok (clock w)) (snd (raw h e w))) ->
  (forall w s, P w -> due h w = Some s ->
               Q (fst (deliver h s w)) (snd (deliver (A := nat) h s w))) ->
  hoare P (guard h e) Q.
Proof.
  intros Hr Hd w Hw. rewrite guard_eq. destruct (due h w) as [s|] eqn:E.
  - apply Hd; assumption.
  - apply Hr; assumption.
Qed.

(** ** Invariants of the main program *)

(** [I] holds of the worlds the program runs through, [S st] of the worlds
    in which it stops with [st]; [E] are the effects it may perform. *)
Section Invariant.
Variable h : host.
Variable I : world -> Prop.
Variable S : stop -> world -> Prop.
Variable E : event -> Prop.
Hypothesis HI : invariant h I S E.


Lemma inv_bind {A B} (m : M A) (f : A -> M B) :
  inv I S m -> (forall x, inv I S (f x)) -> inv I S (bind m f).
Proof. intros Hm Hf. apply hoare_bind with (R := fun _ => I); assumption. Qed.

Lemma inv_ret {A} (x : A) : inv I S (ret x).
Proof. intros w Hw. exact Hw. Qed.

Lemma inv_guard (e : event) : E e -> inv I S (guard h e).
Proof.
  intros He. apply hoare_guard.
  - intros w Hw Hd. apply (i_raw h I S E HI); assumption.
  - intros w s Hw Hd. destruct (deliver_stops (A := nat) h s w) as [st Hst].
    rewrite Hst. apply ((i_deliver h I S E HI) s); assumption.
Qed.

Lemma inv_os_result (r : reply) : inv I S (os_result r).
Proof.
  destruct r; intros w Hw; cbn; [exact Hw | apply (i_exc h I S E HI), Hw].
Qed.

Lemma inv_call (f : fname) : E (ECall f) -> inv I S (call (guard h) f).
Proof. intros He. apply inv_bind; [apply inv_guard, He | intros; apply inv_ret]. Qed.

Lemma inv_print (s : string) : E (EPrint s) -> inv I S (print (guard h) s).
Proof. intros He. apply inv_bind; [apply inv_guard, He | intros; apply inv_ret]. Qed.

Lemma inv_SetThreadExecutionState (flags : Z) :
  E (ESetThreadExecutionState flags) -> inv I S (SetThreadExecutionState h (guard h) flags).
Proof. intros He. apply inv_bind; [apply inv_guard, He | intros; apply inv_os_result]. Qed.

Lemma inv_prevent_sleep :
  (forall w, I w -> S (Raised (SystemExit 1)) w) ->
  (forall e, basic_event e -> E e) -> inv I S (prevent_sleep h (guard h)).
Proof.
  intros H1 HE. unfold prevent_sleep.
  apply inv_bind; [apply inv_call, HE; exact Logic.I | intros _].
  apply inv_bind; [apply inv_SetThreadExecutionState, HE; reflexivity | intros result].
  destruct (Z.eqb result 0); [|apply inv_ret].
  apply inv_bind; [apply inv_print, HE; exact Logic.I | intros _].
  intros w Hw. apply H1, Hw.
Qed.

Lemma inv_time_sleep (d : Q) :
  E (ETimeSleep d) -> inv I S (time_sleep h (guard h) d).
Proof.
  intros He. unfold time_sleep. apply inv_bind; [apply inv_guard, He | intros _].
  unfold unconvertible_sleep, negative_sleep.
  destruct (Qle_bool _ d); [destruct (Qle_bool 0 d); [destruct (Qle_bool d _)|]|];
    intros w Hw; cbn;
    [exact Hw | apply (i_exc h I S E HI), Hw | apply (i_exc h I S E HI), Hw
     | apply (i_exc h I S E HI), Hw].
Qed.

Lemma inv_try_except {A} (body : M A) (handler : string -> M A) :
  inv I S body -> (forall msg, inv I S (handler msg)) -> inv I S (try_except body handler).
Proof.
  intros Hb Hh. apply hoare_try_except with (R := fun _ => I).
  - intros w Hw. specialize (Hb w Hw).
    destruct (fst (body w)) as [x|[[c| |cls msg]|s|]]; try exact Hb.
    apply ((i_caught h I S E HI) cls msg), Hb.
  - exact Hh.
Qed.

Lemma inv_GetCursorPos (pt : POINT) :
  E EGetCursorPos -> inv I S (GetCursorPos h (guard h) pt).
Proof.
  intros He. unfold GetCursorPos.
  apply inv_bind; [apply inv_guard, He | intros t].
  apply inv_bind; [apply inv_os_result | intros v].
  destruct (Z.eqb v 0); [apply inv_ret|].
  apply inv_bind; [intros w Hw; exact Hw | intros; apply inv_ret].
Qed.

Lemma inv_SetCursorPos (x y : Z) :
  E (ESetCursorPos x y) -> inv I S (SetCursorPos h (guard h) x y).
Proof.
  intros He. unfold SetCursorPos.
  apply inv_bind; [apply inv_guard, He | intros t].
  apply inv_bind; [apply inv_os_result | intros v].
  destruct (Z.eqb v 0); [apply inv_ret|].
  intros w Hw. apply (i_cursor h I S E HI), Hw.
Qed.

Lemma inv_nudge_body :
  (forall e, pointer_event e -> E e) -> E (ETimeSleep (5 # 100)) ->
  inv I S (nudge_body h (guard h)).
Proof.
  intros HE Hs. unfold nudge_body.
  apply inv_bind; [apply inv_GetCursorPos, HE; exact Logic.I | intros pt].
  apply inv_bind; [apply inv_SetCursorPos, HE; exact Logic.I | intros _].
  apply inv_bind; [apply inv_time_sleep, Hs | intros _].
  apply inv_SetCursorPos, HE; exact Logic.I.
Qed.

Lemma inv_nudge_mouse :
  (forall e, pointer_event e -> E e) -> (forall e, basic_event e -> E e) ->
  E (ECall fn_nudge_mouse) ->
  inv I S (nudge_mouse h (guard h)).
Proof.
  intros HE HB Hc. unfold nudge_mouse.
  apply inv_bind; [apply inv_call, Hc | intros _].
  apply inv_try_except.
  - apply inv_nudge_body; [exact HE | apply HB; exact Logic.I].
  - intros msg. apply inv_print, HB. exact Logic.I.
Qed.

Lemma inv_cycle (a : args) :
  (forall w, I w -> S (Raised (SystemExit 1)) w) ->
  (forall e, script_event a e -> E e) -> inv I S (cycle h a).
Proof.
  intros H1 HE.
  assert (HB : forall e, basic_event e -> E e) by (intros e He; apply HE; left; exact He).
  unfold cycle. apply inv_bind; [apply inv_prevent_sleep; [exact H1 | exact HB] | intros _].
  apply inv_bind; [|intros _; apply inv_time_sleep, HB; exact Logic.I].
  destruct (mouse a) eqn:Hm; [|apply inv_ret].
  apply inv_nudge_mouse; [|exact HB|].
  - intros e He. apply HE. right. unfold script_event. rewrite Hm. auto.
  - apply HE. right. rewrite Hm. auto.
Qed.

Lemma inv_signal_signal (s : signum) :
  E (ESignalInstall s) -> inv I S (signal_signal (guard h) s).
Proof.
  intros He. unfold signal_signal. apply inv_bind; [apply inv_guard, He | intros _].
  intros w Hw. apply (i_install h I S E HI), Hw.
Qed.

Lemma inv_startup (a : args) :
  (forall w, I w -> S (Raised (SystemExit 1)) w) ->
  (forall e, basic_event e -> E e) -> inv I S (startup h a).
Proof.
  intros H1 HB. unfold startup.
  apply inv_bind; [apply inv_signal_signal, HB; exact Logic.I | intros _].
  apply inv_bind; [apply inv_signal_signal, HB; exact Logic.I | intros _].
  apply inv_bind; [apply inv_prevent_sleep; [exact H1 | exact HB] | intros _].
  apply inv_bind; [apply inv_print, HB; exact Logic.I | intros _].
  destruct (mouse a); [apply inv_print, HB; exact Logic.I | apply inv_ret].
Qed.

Lemma inv_loop (a : args) (n : nat) :
  (forall w, I w -> S (Raised (SystemExit 1)) w) ->
  (forall e, script_event a e -> E e) ->
  hoare I (while_true n (cycle h a))
        (fun r w => match r with
                    | Ok _ => I w
                    | Stop OutOfFuel => I w \/ S OutOfFuel w
                    | Stop st => S st w
                    end).
Proof.
  intros H1 HE. apply hoare_while.
  - intros w Hw. pose proof (inv_cycle a H1 HE w Hw) as H.
    destruct (fst (cycle h a w)) as [x|[e|s|]]; auto.
  - auto.
Qed.

End Invariant.

Lemma hoare_try_finally {A} (P : world -> Prop) (R : res A -> world -> Prop)
      (body : M A) (fin : M unit) (Q : res A -> world -> Prop) :
  hoare P body (fun r w => match r with
                           | Stop (Killed s) => Q (Stop (Killed s)) w
                           | Stop OutOfFuel => Q (Stop OutOfFuel) w
                           | other => R other w
                           end) ->
  (forall r0, hoare (R r0) fin
                    (fun r w => match r with
                                | Ok _ => Q r0 w
                                | Stop s => Q (Stop s) w
                                end)) ->
  hoare P (try_finally body fin) Q.
Proof.
  intros Hb Hf w Hw. specialize (Hb w Hw). unfold try_finally.
  destruct (body w) as [[x|[e|s|]] w']; cbn in *; auto.
  - specialize (Hf (Ok x) w' Hb). destruct (fin w') as [[u|s] w'']; exact Hf.
  - specialize (Hf (Stop (Raised e)) w' Hb). destruct (fin w') as [[u|s] w'']; exact Hf.
Qed.

(** Invariants that do not depend on how the program stops. *)
Section WorldInvariant.
Variable h : host.
Variable a : args.
Variable I : world -> Prop.
Hypothesis W_raw :
  forall e w, run_event a e -> due h w = None -> I w -> I (snd (raw h e w)).
Hypothesis W_deliver :
  forall s w, due h w = Some s -> I w -> I (snd (deliver (A := nat) h s w)).
Hypothesis W_cursor : forall p w, I w -> I (snd (set_cursor p w)).
Hypothesis W_install : forall s w, I w -> I (snd (install s w)).


Lemma W_invariant : invariant h I (fun _ => I) (run_event a).
Proof. constructor; auto. Qed.

Lemma winv_of_inv {A} (m : M A) :
  inv I (fun _ => I) m -> winv I m.
Proof. intros H w Hw. specialize (H w Hw). destruct (fst (m w)); exact H. Qed.

Lemma winv_startup : winv I (startup h a).
Proof.
  apply winv_of_inv.
  apply (inv_startup h I _ _ W_invariant); [auto|].
  intros e He. left. left. exact He.
Qed.

Lemma winv_cycle : winv I (cycle h a).
Proof.
  apply winv_of_inv.
  apply (inv_cycle h I _ _ W_invariant); [auto|].
  intros e He. left. exact He.
Qed.

Lemma winv_loop (n : nat) : winv I (while_true n (cycle h a)).
Proof.
  intros w Hw.
  pose proof (inv_loop h I _ _ W_invariant a n (fun _ Hi => Hi)
                (fun e He => or_introl He) w Hw) as H.
  destruct (fst (while_true n (cycle h a) w)) as [x|[e|s|]]; tauto.
Qed.

Lemma winv_allow_sleep : winv I (allow_sleep h (guard h)).
Proof.
  apply winv_of_inv. unfold allow_sleep.
  apply inv_bind.
  - apply (inv_call h I _ _ W_invariant). right. exact Logic.I.
  - intros _. apply inv_bind.
    + apply (inv_SetThreadExecutionState h I _ _ W_invariant).
      right. reflexivity.
    + intros _. apply inv_ret.
Qed.

Lemma winv_running (n : nat) : winv I (running h a n).
Proof.
  unfold running. apply hoare_try_finally with (R := fun _ => I).
  - intros w Hw. pose proof (winv_loop n w Hw) as H.
    destruct (fst (while_true n (cycle h a) w)) as [x|[e|s|]]; exact H.
  - intros r0 w Hw. pose proof (winv_allow_sleep w Hw) as H.
    destruct (fst (allow_sleep h (guard h) w)); exact H.
Qed.

Lemma winv_main (n : nat) : winv I (main h a n).
Proof.
  unfold main. apply hoare_bind with (R := fun _ => I).
  - intros w Hw. pose proof (winv_startup w Hw) as H.
    destruct (fst (startup h a w)); exact H.
  - intros _. apply winv_running.
Qed.

End WorldInvariant.

(** ** Every effect of a run is one the script can perform *)

Lemma run_events (h : host) (a : args) (p : Z * Z) (n : nat) :
  Forall (run_event a) (trace (snd (run h a p n))).
Proof.
  apply (winv_main h a (fun w => Forall (run_event a) (trace w))).
  - intros e w He _ Hw. cbn. apply Forall_app. split; [exact Hw | constructor; [exact He | constructor]].
  - intros s w _ Hw. rewrite deliver_trace. apply Forall_app. split; [exact Hw|].
    constructor; [right; exact Logic.I|].
    destruct (handled s w); [|constructor].
    repeat constructor; right; cbn; auto.
  - intros p0 w Hw. exact Hw.
  - intros s w Hw. exact Hw.
  - constructor.
Qed.

(** ** Counting calls *)

Arguments calls : simpl never.

Lemma calls_app (f : fname) (tr tr' : list event) :
  calls f (tr ++ tr') = (calls f tr + calls f tr')%nat.
Proof. unfold calls. rewrite filter_app, length_app. reflexivity. Qed.

Lemma calls_snoc_other (f : fname) (tr : list event) (e : event) :
  is_call f e = false -> calls f (tr ++ [e]) = calls f tr.
Proof.
  intros H. rewrite calls_app.
  assert (E : calls f [e] = 0%nat) by (unfold calls; cbn; rewrite H; reflexivity).
  lia.
Qed.

Lemma calls_snoc_same (f : fname) (tr : list event) :
  calls f (tr ++ [ECall f]) = S (calls f tr).
Proof.
  rewrite calls_app.
  assert (E : calls f [ECall f] = 1%nat) by (destruct f; reflexivity).
  lia.
Qed.

Lemma is_call_other (f : fname) (e : event) : e <> ECall f -> is_call f e = false.
Proof.
  intros H. destruct e as [g| | | | | | |]; try (destruct f; reflexivity).
  destruct g, f; try reflexivity; congruence.
Qed.

(** How a delivery stops the program. *)
Lemma deliver_fst {A} (h : host) (s : signum) (w : world) :
  fst (deliver (A := A) h s w) =
  if handled s w then
    Stop (Raised (match kernel32 h (4 + clock w) with
                  | Returns _ => SystemExit 0
                  | Throws cls msg => Exception cls msg
                  end))
  else match s with
       | SIGINT => Stop (Raised KeyboardInterrupt)
       | SIGTERM => Stop (Killed SIGTERM)
       end.
Proof.
  unfold deliver, on_exit, allow_sleep, call, print, SetThreadExecutionState,
    bind, raw, handled. cbn.
  destruct s; cbn.
  - destruct (sigint_handled w); cbn; [destruct (kernel32 h _); reflexivity | reflexivity].
  - destruct (sigterm_handled w); cbn; [destruct (kernel32 h _); reflexivity | reflexivity].
Qed.

Lemma deliver_has_fuel {A} (h : host) (s : signum) (w : world) :
  fst (deliver (A := A) h s w) <> Stop OutOfFuel.
Proof.
  rewrite deliver_fst. destruct (handled s w); [|destruct s]; discriminate.
Qed.

Lemma deliver_handlers {A} (h : host) (s : signum) (w : world) :
  sigint_handled (snd (deliver (A := A) h s w)) = sigint_handled w /\
  sigterm_handled (snd (deliver (A := A) h s w)) = sigterm_handled w.
Proof.
  unfold deliver, on_exit, allow_sleep, call, print, SetThreadExecutionState,
    bind, raw, handled. cbn.
  destruct s; cbn.
  - destruct (sigint_handled w); cbn; [destruct (kernel32 h _); cbn|]; auto.
  - destruct (sigterm_handled w); cbn; [destruct (kernel32 h _); cbn|]; auto.
Qed.

Lemma calls_handler_events (f : fname) :
  calls f handler_events =
  match f with fn_on_exit => 1 | fn_allow_sleep => 1 | _ => 0 end%nat.
Proof. destruct f; reflexivity. Qed.

Lemma deliver_calls {A} (h : host) (f : fname) (s : signum) (w : world) :
  calls f (trace (snd (deliver (A := A) h s w))) =
  (calls f (trace w) +
   if handled s w then
     match f with fn_on_exit => 1 | fn_allow_sleep => 1 | _ => 0 end
   else 0)%nat.
Proof.
  rewrite deliver_trace, calls_app. f_equal.
  change (ESignal s :: ?l) with ([ESignal s] ++ l).
  destruct (handled s w).
  - change (calls f (ESignal s :: handler_events)) with (calls f handler_events).
    apply calls_handler_events.
  - destruct f; reflexivity.
Qed.

(** The program stops for a reason: it never runs out of fuel outside the
    loop. *)
Lemma fuel_invariant (h : host) :
  invariant h (fun _ => True) (fun st _ => st <> OutOfFuel) (fun _ => True).
Proof.
  constructor; auto; try discriminate.
  intros s w st _ _ H. pose proof (deliver_has_fuel (A := nat) h s w) as Hf.
  rewrite H in Hf. congruence.
Qed.

(** Counting the calls of [nudge_mouse] (or of [prevent_sleep]): nothing but
    the call itself changes the count. *)
Lemma count_invariant (h : host) (f : fname) (k : nat) :
  f = fn_nudge_mouse \/ f = fn_prevent_sleep ->
  invariant h (fun w => calls f (trace w) = k)
            (fun st w => calls f (trace w) = k /\ st <> OutOfFuel)
            (fun e => e <> ECall f).
Proof.
  intros Hf. constructor.
  - intros e w He _ Hk. change (trace (snd (raw h e w))) with (trace w ++ [e]).
    rewrite calls_snoc_other; [exact Hk | apply is_call_other, He].
  - intros s w st _ Hk H. split.
    + rewrite deliver_calls, Hk. destruct (handled s w); [|lia].
      destruct Hf; subst f; lia.
    + pose proof (deliver_has_fuel (A := nat) h s w) as Hn. rewrite H in Hn. congruence.
  - intros p w Hk. exact Hk.
  - intros s w Hk. exact Hk.
  - intros cls msg w Hk. split; [exact Hk | discriminate].
  - intros cls msg w [Hk _]. exact Hk.
Qed.

Lemma cycle_counts_nudge (h : host) (a : args) (k : nat) :
  mouse a = true ->
  hoare (fun w => calls fn_nudge_mouse (trace w) = k) (cycle h a)
        (fun r w => match r with
                    | Ok _ => calls fn_nudge_mouse (trace w) = S k
                    | Stop st => st <> OutOfFuel
                    end).
Proof.
  intros Hm. unfold cycle. rewrite Hm.
  pose proof (count_invariant h fn_nudge_mouse k (or_introl eq_refl)) as Ik.
  pose proof (count_invariant h fn_nudge_mouse (S k) (or_introl eq_refl)) as ISk.
  apply hoare_bind with (R := fun _ w => calls fn_nudge_mouse (trace w) = k).
  { eapply hoare_conseq; [| |apply (inv_prevent_sleep h _ _ _ Ik)].
    - auto.
    - intros [x|st] w; cbn; tauto.
    - intros w Hk. split; [exact Hk | discriminate].
    - intros e He. destruct e as [[]| | | | | | |]; cbn in He; try tauto; discriminate. }
  intros _.
  apply hoare_bind with (R := fun _ w => calls fn_nudge_mouse (trace w) = S k).
  { unfold nudge_mouse.
    apply hoare_bind with (R := fun _ w => calls fn_nudge_mouse (trace w) = S k).
    - unfold call. apply hoare_bind with (R := fun _ w => calls fn_nudge_mouse (trace w) = S k).
      + apply hoare_guard.
        * intros w Hk _. cbn. rewrite calls_snoc_same. congruence.
        * intros w s _ _. pose proof (deliver_has_fuel (A := nat) h s w) as Hn.
          destruct (deliver_stops (A := nat) h s w) as [st Hst].
          rewrite Hst in *. congruence.
      + intros _ w Hk. exact Hk.
    - intros _. eapply hoare_conseq; [| |apply (inv_try_except h _ _ _ ISk)].
      + auto.
      + intros [x|st] w; cbn; tauto.
      + apply (inv_nudge_body h _ _ _ ISk); [|discriminate].
        intros e He. destruct e; cbn in He; try tauto; discriminate.
      + intros msg. apply (inv_print h _ _ _ ISk). discriminate. }
  intros _.
  eapply hoare_conseq; [| |apply (inv_time_sleep h _ _ _ ISk)].
  - auto.
  - intros [x|st] w; cbn; tauto.
  - discriminate.
Qed.

Lemma loop_counts_nudge (h : host) (a : args) (n : nat) :
  mouse a = true ->
  forall k,
  hoare (fun w => calls fn_nudge_mouse (trace w) = k) (while_true n (cycle h a))
        (fun r w => r = Stop OutOfFuel -> calls fn_nudge_mouse (trace w) = (k + n)%nat).
Proof.
  intros Hm. induction n as [|n IH]; intros k; cbn [while_true].
  - intros w Hk _. cbn. lia.
  - apply hoare_bind with (R := fun _ w => calls fn_nudge_mouse (trace w) = S k).
    + eapply hoare_conseq; [| |apply (cycle_counts_nudge h a k Hm)]; [auto|].
      intros [x|st] w; cbn; [auto | congruence].
    + intros _. eapply hoare_conseq; [| |apply (IH (S k))]; [auto|].
      intros r w H Hr. rewrite (H Hr). lia.
Qed.

Lemma allow_sleep_has_fuel (h : host) :
  hoare (fun _ => True) (allow_sleep h (guard h)) (fun r _ => r <> Stop OutOfFuel).
Proof.
  apply hoare_conseq with (P := fun _ => True)
    (Q := fun r w => match r with Ok _ => True | Stop st => st <> OutOfFuel end).
  - auto.
  - intros [x|st] w; cbn; intros; congruence.
  - unfold allow_sleep. apply (inv_bind (fun _ => True) (fun st _ => st <> OutOfFuel)).
    + apply (inv_call h _ _ _ (fuel_invariant h)). exact Logic.I.
    + intros _. apply inv_bind.
      * apply (inv_SetThreadExecutionState h _ _ _ (fuel_invariant h)). exact Logic.I.
      * intros _. apply inv_ret.
Qed.

Lemma run_counts_nudge (h : host) (a : args) (p : Z * Z) (n : nat) :
  mouse a = true ->
  fst (run h a p n) = Stop OutOfFuel ->
  calls fn_nudge_mouse (trace (snd (run h a p n))) = n.
Proof.
  intros Hm. unfold run, main.
  apply (hoare_bind (fun w => calls fn_nudge_mouse (trace w) = 0%nat)
                    (fun _ w => calls fn_nudge_mouse (trace w) = 0%nat)
                    (startup h a) (fun _ => running h a n)
                    (fun r w => r = Stop OutOfFuel -> calls fn_nudge_mouse (trace w) = n)).
  - eapply hoare_conseq;
      [| |apply (inv_startup h _ _ _ (count_invariant h fn_nudge_mouse 0 (or_introl eq_refl)))].
    + auto.
    + intros [x|st] w; cbn; [auto | intros [_ H] E; congruence].
    + intros w Hk. split; [exact Hk | discriminate].
    + intros e He. destruct e as [[]| | | | | | |]; cbn in He; try tauto; discriminate.
  - intros _. unfold running.
    apply hoare_try_finally with (R := fun r0 _ => r0 <> Stop OutOfFuel).
    + intros w Hk. pose proof (loop_counts_nudge h a n Hm 0%nat w Hk) as H.
      destruct (fst (while_true n (cycle h a) w)) as [x|[e|s|]]; auto; discriminate.
    + intros r0 w Hr. pose proof (allow_sleep_has_fuel h w Logic.I) as H.
      destruct (fst (allow_sleep h (guard h) w)) as [x|st]; congruence.
  - reflexivity.
Qed.

(** ** Straight-line runs *)

Arguments wrap32 : simpl never.
Arguments Qle_bool : simpl never.

Lemma wrap32_small (z : Z) : in_c_long z -> wrap32 z = z.
Proof. unfold in_c_long, wrap32. intros H. rewrite Z.mod_small; lia. Qed.

Lemma pause_convertible : Qle_bool (inject_Z (- PY_TIME_MAX_SECONDS)) (5 # 100) = true.
Proof. reflexivity. Qed.

Lemma pause_nonneg : Qle_bool 0 (5 # 100) = true.
Proof. reflexivity. Qed.

Lemma sleep_convertible (i : Z) :
  - PY_TIME_MAX_SECONDS <= i -> Qle_bool (inject_Z (- PY_TIME_MAX_SECONDS)) (inject_Z i) = true.
Proof.
  unfold PY_TIME_MAX_SECONDS. intros H. unfold Qle_bool. cbn. apply Z.leb_le. lia.
Qed.

Lemma sleep_unconvertible (i : Z) :
  i < - PY_TIME_MAX_SECONDS -> Qle_bool (inject_Z (- PY_TIME_MAX_SECONDS)) (inject_Z i) = false.
Proof.
  unfold PY_TIME_MAX_SECONDS. intros H. unfold Qle_bool. cbn. apply Z.leb_gt. lia.
Qed.

Lemma sleep_convertible_nonneg (i : Z) :
  0 <= i -> Qle_bool (inject_Z (- PY_TIME_MAX_SECONDS)) (inject_Z i) = true.
Proof. intros H. apply sleep_convertible. unfold PY_TIME_MAX_SECONDS. lia. Qed.

Lemma pause_ok (limit : Z) : 1 <= limit -> Qle_bool (5 # 100) (inject_Z limit) = true.
Proof. intros H. unfold Qle_bool. cbn. apply Z.leb_le. lia. Qed.

Lemma sleep_nonneg (i : Z) : 0 <= i -> Qle_bool 0 (inject_Z i) = true.
Proof. intros H. unfold Qle_bool. cbn. apply Z.leb_le. lia. Qed.

Lemma sleep_neg (i : Z) : i < 0 -> Qle_bool 0 (inject_Z i) = false.
Proof. intros H. unfold Qle_bool. cbn. apply Z.leb_gt. lia. Qed.

Lemma sleep_within (i limit : Z) : i <= limit -> Qle_bool (inject_Z i) (inject_Z limit) = true.
Proof. intros H. unfold Qle_bool. cbn. apply Z.leb_le. lia. Qed.

Lemma signal_not_before_le (h : host) (c c' : nat) :
  signal_not_before h c -> (c' <= c)%nat -> signal_not_before h c'.
Proof. intros H Hc t s E. specialize (H t s E). lia. Qed.

Ltac unfold_script :=
  unfold cycle, nudge_mouse, nudge_body, prevent_sleep, allow_sleep, time_sleep,
    GetCursorPos, SetCursorPos, SetThreadExecutionState, call, print,
    signal_signal, try_except, bind, get_cursor, set_cursor, install, sys_exit,
    raise, ret.

Ltac raw_step Hs :=
  rewrite (guard_before _ _ _ _ Hs) by (cbn; lia); cbn.

(** The pointer returns to where it was. *)
Lemma nudge_round_trip (h : host) (w : world) :
  signal_not_before h (clock w + 5) ->
  accepts (user32 h) ->
  (forall t, pointer_input h t = None) ->
  1 <= sleep_limit h ->
  in_c_long (fst (cursor w)) -> in_c_long (snd (cursor w)) ->
  fst (nudge_mouse h (guard h) w) = Ok tt /\
  cursor (snd (nudge_mouse h (guard h) w)) = cursor w /\
  trace (snd (nudge_mouse h (guard h) w)) =
    trace w ++ [ECall fn_nudge_mouse; EGetCursorPos;
                ESetCursorPos (fst (cursor w) + 1) (snd (cursor w));
                ETimeSleep (5 # 100);
                ESetCursorPos (fst (cursor w)) (snd (cursor w))].
Proof.
  intros Hs Hu Hp Hl Hx Hy.
  destruct (cursor w) as [x y] eqn:Hc. cbn [fst snd] in *.
  unfold_script.
  rewrite pause_convertible, pause_nonneg, (pause_ok _ Hl).
  raw_step Hs. raw_step Hs.
  destruct (Hu (S (clock w))) as (v1 & Hv1 & Hn1). rewrite Hv1. cbn.
  rewrite (proj2 (Z.eqb_neq v1 0) Hn1). cbn.
  rewrite !Hp, Hc. cbn.
  raw_step Hs.
  destruct (Hu (S (S (clock w)))) as (v2 & Hv2 & Hn2). rewrite Hv2. cbn.
  rewrite (proj2 (Z.eqb_neq v2 0) Hn2). cbn.
  raw_step Hs. raw_step Hs.
  destruct (Hu (S (S (S (S (clock w)))))) as (v3 & Hv3 & Hn3). rewrite Hv3. cbn.
  rewrite (proj2 (Z.eqb_neq v3 0) Hn3). cbn.
  unfold c_int, c_long. rewrite !(wrap32_small x Hx), !(wrap32_small y Hy).
  repeat split. rewrite <- !app_assoc. reflexivity.
Qed.

Ltac split_host h :=
  match goal with
  | |- context [user32 h ?t] => destruct (user32 h t) as [? | ? ?]; cbn
  | |- context [Z.eqb ?v 0] => destruct (Z.eqb v 0); cbn
  | |- context [Qle_bool ?a ?b] => destruct (Qle_bool a b); cbn
  end.

(** A nudge always returns normally when no signal interrupts it, whatever
    user32 answers. *)
Lemma nudge_returns (h : host) (w : world) :
  signal_not_before h (clock w + 6) ->
  exists w' tl,
    nudge_mouse h (guard h) w = (Ok tt, w') /\
    trace w' = trace w ++ ECall fn_nudge_mouse :: tl /\
    Forall nudge_inner tl /\
    (clock w < clock w' <= clock w + 6)%nat /\
    sigint_handled w' = sigint_handled w /\
    sigterm_handled w' = sigterm_handled w.
Proof.
  intros Hs. unfold_script. rewrite pause_convertible, pause_nonneg.
  repeat (first [raw_step Hs | split_host h]);
    (do 2 eexists; split; [reflexivity|]; cbn;
     split; [rewrite <- !app_assoc; reflexivity|];
     split; [repeat (constructor; [cbn; eauto|]); constructor|];
     repeat split; lia).
Qed.

Lemma nudge_body_clock (h : host) (w : world) :
  signal_not_before h (clock w + 4) ->
  (clock (snd (nudge_body h (guard h) w)) <= clock w + 4)%nat.
Proof.
  intros Hs. unfold_script. rewrite pause_convertible, pause_nonneg.
  repeat (first [raw_step Hs | split_host h]); lia.
Qed.

(** An exception raised inside the [try] of a nudge ends in the warning. *)
Lemma nudge_exception_warned (h : host) (w w2 : world) (cls msg : string) :
  signal_not_before h (clock w + 6) ->
  nudge_body h (guard h) (after h (ECall fn_nudge_mouse) w)
    = (Stop (Raised (Exception cls msg)), w2) ->
  nudge_mouse h (guard h) w = (Ok tt, after h (EPrint (msg_warn msg)) w2).
Proof.
  intros Hs Hb.
  assert (Hc : (clock w2 <= clock w + 5)%nat).
  { pose proof (nudge_body_clock h (after h (ECall fn_nudge_mouse) w)) as H.
    rewrite Hb in H. cbn in H.
    assert (Hs' : signal_not_before h (S (clock w + 4)))
      by (apply (signal_not_before_le h _ _ Hs); lia).
    specialize (H Hs'). lia. }
  unfold nudge_mouse, call, print, try_except, bind.
  rewrite (guard_before h _ _ _ Hs) by lia.
  change (raw h (ECall fn_nudge_mouse) w) with (Ok (clock w), after h (ECall fn_nudge_mouse) w).
  cbn [ret]. rewrite Hb.
  rewrite (guard_before h _ _ _ Hs) by lia. reflexivity.
Qed.

Lemma prevent_sleep_ok (h : host) (w : world) :
  signal_not_before h (clock w + 2) ->
  accepts (kernel32 h) ->
  prevent_sleep h (guard h) w =
  (Ok tt, after h (ESetThreadExecutionState AWAKE) (after h (ECall fn_prevent_sleep) w)).
Proof.
  intros Hs Hk. unfold_script. raw_step Hs. raw_step Hs.
  destruct (Hk (S (clock w))) as (v & Hv & Hn). rewrite Hv. cbn.
  rewrite (proj2 (Z.eqb_neq v 0) Hn). reflexivity.
Qed.

Lemma time_sleep_eq (h : host) (d : Q) (w : world) :
  signal_not_before h (clock w + 1) ->
  time_sleep h (guard h) d w =
  (if Qle_bool (inject_Z (- PY_TIME_MAX_SECONDS)) d then
     if Qle_bool 0 d then
       if Qle_bool d (inject_Z (sleep_limit h)) then Ok tt
       else Stop (Raised unconvertible_sleep)
     else Stop (Raised negative_sleep)
   else Stop (Raised unconvertible_sleep),
   after h (ETimeSleep d) w).
Proof.
  intros Hs. unfold_script. raw_step Hs.
  destruct (Qle_bool _ d); [destruct (Qle_bool 0 d); [destruct (Qle_bool d _)|]|];
    reflexivity.
Qed.

Lemma allow_sleep_eq (h : host) (w : world) :
  signal_not_before h (clock w + 2) ->
  allow_sleep h (guard h) w =
  (match kernel32 h (S (clock w)) with
   | Returns _ => Ok tt
   | Throws cls msg => Stop (Raised (Exception cls msg))
   end,
   after h (ESetThreadExecutionState ES_CONTINUOUS) (after h (ECall fn_allow_sleep) w)).
Proof.
  intros Hs. unfold_script. raw_step Hs. raw_step Hs.
  destruct (kernel32 h (S (clock w))); reflexivity.
Qed.

(** A cycle up to its sleep: the reassertion, then the nudge if enabled. *)
Lemma cycle_to_sleep (h : host) (a : args) (w : world) :
  signal_not_before h (clock w + 9) ->
  accepts (kernel32 h) ->
  exists w3 mid,
    cycle h a w = time_sleep h (guard h) (inject_Z (interval a)) w3 /\
    trace w3 = trace w ++ [ECall fn_prevent_sleep; ESetThreadExecutionState AWAKE] ++ mid /\
    nudge_part a mid /\
    (clock w + 2 <= clock w3 <= clock w + 8)%nat /\
    sigint_handled w3 = sigint_handled w /\
    sigterm_handled w3 = sigterm_handled w.
Proof.
  intros Hs Hk. unfold cycle, bind at 1.
  rewrite prevent_sleep_ok by (auto; apply (signal_not_before_le h _ _ Hs); lia).
  unfold nudge_part. unfold bind. destruct (mouse a).
  - set (w2 := after h _ (after h _ w)).
    destruct (nudge_returns h w2) as (w3 & tl & E & Ht & Hf & Hc & Hi & Hm).
    { apply (signal_not_before_le h _ _ Hs). cbn. lia. }
    rewrite E. exists w3, (ECall fn_nudge_mouse :: tl).
    split; [reflexivity|]. split.
    { rewrite Ht. cbn. rewrite <- !app_assoc. reflexivity. }
    split; [eauto|]. cbn in Hc, Hi, Hm. repeat split; try lia; assumption.
  - cbn [ret]. eexists. exists []. split; [reflexivity|]. cbn.
    rewrite <- !app_assoc. repeat split; lia.
Qed.

(** A complete cycle. *)
Lemma cycle_runs (h : host) (a : args) (w : world) :
  signal_not_before h (clock w + 9) ->
  accepts (kernel32 h) ->
  0 <= interval a <= sleep_limit h ->
  exists w' c,
    cycle h a w = (Ok tt, w') /\
    trace w' = trace w ++ c /\
    cycle_shape a c /\
    (clock w < clock w' <= clock w + 9)%nat /\
    sigint_handled w' = sigint_handled w /\
    sigterm_handled w' = sigterm_handled w.
Proof.
  intros Hs Hk Hi.
  destruct (cycle_to_sleep h a w Hs Hk) as (w3 & mid & E & Ht & Hm & Hc & H1 & H2).
  rewrite E, time_sleep_eq by (apply (signal_not_before_le h _ _ Hs); lia).
  rewrite sleep_convertible_nonneg, sleep_nonneg, sleep_within by lia.
  eexists. exists ([ECall fn_prevent_sleep; ESetThreadExecutionState AWAKE]
                     ++ mid ++ [ETimeSleep (inject_Z (interval a))]).
  split; [reflexivity|]. cbn. rewrite Ht. split.
  { rewrite <- !app_assoc. reflexivity. }
  split; [exists mid; auto|]. repeat split; try lia; assumption.
Qed.

Lemma loop_runs (h : host) (a : args) (n : nat) :
  accepts (kernel32 h) ->
  0 <= interval a <= sleep_limit h ->
  forall w,
  signal_not_before h (clock w + 9 * n) ->
  exists w' tr,
    while_true n (cycle h a) w = (Stop OutOfFuel, w') /\
    trace w' = trace w ++ tr /\
    cycles a n tr.
Proof.
  intros Hk Hi. induction n as [|n IH]; intros w Hs; cbn [while_true].
  - exists w, []. rewrite app_nil_r. repeat split. constructor.
  - destruct (cycle_runs h a w) as (w1 & c & E & Ht & Hsh & Hc & _); auto.
    { apply (signal_not_before_le h _ _ Hs). lia. }
    destruct (IH w1) as (w' & tr & E' & Ht' & Hcs).
    { apply (signal_not_before_le h _ _ Hs). lia. }
    exists w', (c ++ tr). unfold bind. rewrite E, E'. split; [reflexivity|].
    split; [rewrite Ht', Ht, app_assoc; reflexivity|].
    constructor; assumption.
Qed.

Lemma startup_ok (h : host) (a : args) (p : Z * Z) :
  signal_not_before h 6 ->
  accepts (kernel32 h) ->
  exists w,
    startup h a (boot p) = (Ok tt, w) /\
    trace w = startup_trace a /\
    (clock w <= 6)%nat /\
    installed w.
Proof.
  intros Hs Hk. unfold startup, startup_trace, installed.
  unfold_script. unfold boot.
  raw_step Hs. raw_step Hs. raw_step Hs. raw_step Hs.
  destruct (Hk 3%nat) as (v & Hv & Hn). rewrite Hv. cbn.
  rewrite (proj2 (Z.eqb_neq v 0) Hn). cbn.
  raw_step Hs.
  destruct (mouse a).
  - raw_step Hs. eexists. split; [reflexivity|]. cbn. repeat split. lia.
  - eexists. split; [reflexivity|]. cbn. repeat split. lia.
Qed.

Lemma quiet_kernel32 (limit : Z) : accepts (kernel32 (quiet_host limit)).
Proof. intros t. exists 1. split; [reflexivity | discriminate]. Qed.

Lemma quiet_user32 (limit : Z) : accepts (user32 (quiet_host limit)).
Proof. intros t. exists 1. split; [reflexivity | discriminate]. Qed.

Lemma no_signal_not_before (h : host) (c : nat) :
  signal_at h = None -> signal_not_before h c.
Proof. intros E t s H. rewrite E in H. discriminate H. Qed.


(** ** The releases of a run *)

Lemma due_at (h : host) (w : world) (s : signum) :
  due h w = Some s -> signal_at h = Some (clock w, s).
Proof.
  unfold due. destruct (signal_at h) as [[t s']|]; [|discriminate].
  destruct (Nat.eqb_spec t (clock w)); [|discriminate].
  intros E. inversion E. subst. reflexivity.
Qed.

Lemma due_after (h : host) (t : nat) (s : signum) (w : world) :
  signal_at h = Some (t, s) -> (t < clock w)%nat -> due h w = None.
Proof.
  intros E H. unfold due. rewrite E.
  destruct (Nat.eqb_spec t (clock w)); [lia | reflexivity].
Qed.

Lemma signal_passed_raw (h : host) (e : event) (w : world) :
  signal_passed h w -> signal_passed h (snd (raw h e w)).
Proof. intros (t & s & E & H). exists t, s. split; [exact E | cbn; lia]. Qed.

Lemma handler_once_raw (h : host) (e : event) (w : world) :
  e <> ECall fn_on_exit -> handler_once h w -> handler_once h (snd (raw h e w)).
Proof.
  intros He [H|[H Hp]]; [left|right; split; [|apply signal_passed_raw, Hp]];
    change (trace (snd (raw h e w))) with (trace w ++ [e]);
    rewrite calls_snoc_other by (apply is_call_other, He); exact H.
Qed.

Lemma handler_once_due (h : host) (w : world) (s : signum) :
  due h w = Some s -> handler_once h w -> calls fn_on_exit (trace w) = 0%nat.
Proof.
  intros Hd [H|[_ (t & s' & E & Hlt)]]; [exact H|].
  apply due_at in Hd. rewrite Hd in E. inversion E. lia.
Qed.

Lemma release_count_deliver (h : host) (d : nat) (s : signum) (w : world) :
  due h w = Some s -> release_count h d w ->
  release_count h d (snd (deliver (A := nat) h s w)).
Proof.
  intros Hd [Hc Ho]. pose proof (handler_once_due h w s Hd Ho) as H0.
  unfold release_count, handler_once. rewrite !deliver_calls, H0, Hc, H0.
  destruct (handled s w).
  - split; [lia|]. right. split; [reflexivity|].
    exists (clock w), s. split; [apply due_at, Hd | apply deliver_clock].
  - split; [lia|]. left. reflexivity.
Qed.

Lemma release_invariant (h : host) (d : nat) :
  invariant h (release_count h d) (fun _ => release_count h d)
            (fun e => e <> ECall fn_allow_sleep /\ e <> ECall fn_on_exit).
Proof.
  constructor; auto.
  - intros e w [He1 He2] _ [Hc Ho]. split; [|apply handler_once_raw; assumption].
    change (trace (snd (raw h e w))) with (trace w ++ [e]).
    rewrite !calls_snoc_other by (apply is_call_other; assumption). exact Hc.
  - intros s w st Hd Hr _. apply release_count_deliver; assumption.
Qed.

Lemma script_event_no_release (a : args) (e : event) :
  script_event a e -> e <> ECall fn_allow_sleep /\ e <> ECall fn_on_exit.
Proof.
  intros [He|[_ [He|He]]]; destruct e as [[]| | | | | | |]; cbn in He;
    try tauto; split; discriminate.
Qed.

Lemma allow_sleep_release (h : host) :
  hoare (release_count h 0) (allow_sleep h (guard h))
        (fun _ w => release_count h 0 w \/ release_count h 1 w).
Proof.
  unfold allow_sleep.
  apply hoare_bind with (R := fun _ => release_count h 1).
  - unfold call. apply hoare_bind with (R := fun _ => release_count h 1).
    + apply hoare_guard.
      * intros w [Hc Ho] _. split; [|apply handler_once_raw; [discriminate|exact Ho]].
        change (trace (snd (raw h (ECall fn_allow_sleep) w)))
          with (trace w ++ [ECall fn_allow_sleep]).
        rewrite calls_snoc_same, calls_snoc_other by reflexivity. lia.
      * intros w s Hr Hd. destruct (deliver_stops (A := nat) h s w) as [st Hst].
        rewrite Hst. left. apply release_count_deliver; assumption.
    + intros _ w Hw. exact Hw.
  - intros _. apply hoare_bind with (R := fun _ => release_count h 1).
    + eapply hoare_conseq;
        [| |apply (inv_SetThreadExecutionState h _ _ _ (release_invariant h 1))].
      * auto.
      * intros [x|st] w H; [exact H | right; exact H].
      * split; discriminate.
    + intros _ w Hw. right. exact Hw.
Qed.

Lemma main_release (h : host) (a : args) (n : nat) :
  hoare (release_count h 0) (main h a n)
        (fun _ w => release_count h 0 w \/ release_count h 1 w).
Proof.
  unfold main. apply hoare_bind with (R := fun _ => release_count h 0).
  - eapply hoare_conseq; [| |apply (inv_startup h _ _ _ (release_invariant h 0) a)].
    + auto.
    + intros [x|st] w H; [exact H | left; exact H].
    + auto.
    + intros e He. apply (script_event_no_release a). left. exact He.
  - intros _. unfold running.
    apply hoare_try_finally with (R := fun _ => release_count h 0).
    + intros w Hw.
      pose proof (inv_loop h _ _ _ (release_invariant h 0) a n (fun _ H => H)
                    (script_event_no_release a) w Hw) as H.
      destruct (fst (while_true n (cycle h a) w)) as [x|[e|s|]]; tauto.
    + intros r0 w Hw. pose proof (allow_sleep_release h w Hw) as H.
      destruct (fst (allow_sleep h (guard h) w)); exact H.
Qed.

(** Every run: the handler runs at most once, and [allow_sleep] is called
    once by the handler and at most once more. *)
Lemma run_release (h : host) (a : args) (p : Z * Z) (n : nat) :
  release_count h 0 (snd (run h a p n)) \/ release_count h 1 (snd (run h a p n)).
Proof.
  apply main_release. split; [reflexivity | left; reflexivity].
Qed.

(** ** Installed handlers *)

Lemma installed_invariant (h : host) :
  invariant h installed (fun st w => installed w /\ stopped_by_python st) (fun _ => True).
Proof.
  constructor.
  - intros e w _ _ H. exact H.
  - intros s w st _ [Hi Ht] E. split.
    + destruct (deliver_handlers (A := nat) h s w) as [E1 E2].
      split; congruence.
    + rewrite deliver_fst in E.
      assert (Hh : handled s w = true) by (destruct s; assumption).
      rewrite Hh in E. inversion E. destruct (kernel32 h _); exact Logic.I.
  - intros p w H. exact H.
  - intros s w [Hi Ht]. destruct s; split; cbn; auto.
  - intros cls msg w H. split; [exact H | exact Logic.I].
  - intros cls msg w [H _]. exact H.
Qed.

Lemma startup_installs (h : host) (a : args) :
  hoare (fun _ => True) (startup h a) (fun r w => r = Ok tt -> installed w).
Proof.
  unfold startup.
  apply hoare_bind with (R := fun _ w => sigint_handled w = true).
  { unfold signal_signal.
    apply hoare_bind with (R := fun _ _ => True).
    - apply hoare_guard.
      + auto.
      + intros w s _ _. destruct (deliver_stops (A := nat) h s w) as [st Hst].
        rewrite Hst. discriminate.
    - intros _ w _. reflexivity. }
  intros _. apply hoare_bind with (R := fun _ w => installed w).
  { unfold signal_signal.
    apply hoare_bind with (R := fun _ w => sigint_handled w = true).
    - apply hoare_guard.
      + intros w H _. exact H.
      + intros w s _ _. destruct (deliver_stops (A := nat) h s w) as [st Hst].
        rewrite Hst. discriminate.
    - intros _ w H. split; [exact H | reflexivity]. }
  intros _.
  apply hoare_conseq with (P := installed)
    (Q := fun r w => match r with
                     | Ok _ => installed w
                     | Stop st => installed w /\ stopped_by_python st
                     end).
  - auto.
  - intros [x|st] w H; [intros _; exact H | discriminate].
  - apply inv_bind.
    + apply (inv_prevent_sleep h _ _ _ (installed_invariant h)); [|auto].
      intros w H. split; [exact H | exact Logic.I].
    + intros _. apply inv_bind.
      * apply (inv_print h _ _ _ (installed_invariant h)). exact Logic.I.
      * intros _. destruct (mouse a); [|apply inv_ret].
        apply (inv_print h _ _ _ (installed_invariant h)). exact Logic.I.
Qed.

Lemma release_called_invariant (h : host) :
  invariant h (fun w => (1 <= calls fn_allow_sleep (trace w))%nat)
            (fun _ w => (1 <= calls fn_allow_sleep (trace w))%nat)
            (fun _ => True).
Proof.
  constructor; auto.
  - intros e w _ _ H. change (trace (snd (raw h e w))) with (trace w ++ [e]).
    rewrite calls_app. lia.
  - intros s w st _ H _. rewrite deliver_calls. lia.
Qed.

Lemma allow_sleep_called (h : host) :
  hoare installed (allow_sleep h (guard h))
        (fun _ w => (1 <= calls fn_allow_sleep (trace w))%nat).
Proof.
  unfold allow_sleep.
  apply hoare_bind with (R := fun _ w => (1 <= calls fn_allow_sleep (trace w))%nat).
  - unfold call.
    apply hoare_bind with (R := fun _ w => (1 <= calls fn_allow_sleep (trace w))%nat).
    + apply hoare_guard.
      * intros w _ _.
        change (trace (snd (raw h (ECall fn_allow_sleep) w)))
          with (trace w ++ [ECall fn_allow_sleep]).
        rewrite calls_snoc_same. lia.
      * intros w s [Hi Ht] _. destruct (deliver_stops (A := nat) h s w) as [st Hst].
        rewrite Hst, deliver_calls.
        assert (Hh : handled s w = true) by (destruct s; assumption).
        rewrite Hh. lia.
    + intros _ w H. exact H.
  - intros _.
    apply hoare_bind with (R := fun _ w => (1 <= calls fn_allow_sleep (trace w))%nat).
    + eapply hoare_conseq;
        [| |apply (inv_SetThreadExecutionState h _ _ _ (release_called_invariant h))].
      * auto.
      * intros [x|st] w H; exact H.
      * exact Logic.I.
    + intros _ w H. exact H.
Qed.

(** Whatever ends the running state, [allow_sleep] has been called. *)
Lemma running_releases (h : host) (a : args) (n : nat) :
  hoare installed (running h a n)
        (fun r w => r <> Stop OutOfFuel -> (1 <= calls fn_allow_sleep (trace w))%nat).
Proof.
  unfold running. apply hoare_try_finally with (R := fun _ => installed).
  - intros w Hw.
    pose proof (inv_loop h _ _ _ (installed_invariant h) a n
                  (fun w H => conj H Logic.I) (fun _ _ => Logic.I) w Hw) as H.
    destruct (fst (while_true n (cycle h a) w)) as [x|[e|s|]]; cbn in *;
      try tauto; try congruence.
  - intros r0 w Hw. pose proof (allow_sleep_called h w Hw) as H.
    destruct (fst (allow_sleep h (guard h) w)); intros _; exact H.
Qed.

Lemma run_releases_after_startup (h : host) (a : args) (p : Z * Z) (n : nat) :
  fst (startup h a (boot p)) = Ok tt ->
  fst (run h a p n) <> Stop OutOfFuel ->
  (1 <= calls fn_allow_sleep (trace (snd (run h a p n))))%nat.
Proof.
  intros Hs. pose proof (startup_installs h a (boot p) Logic.I Hs) as Hi.
  unfold run, main, bind.
  destruct (startup h a (boot p)) as [[x|st] w1]; cbn in Hs, Hi; [|discriminate].
  apply (running_releases h a n w1 Hi).
Qed.

(** ** A signal during the loop *)

Lemma waiting_le (t c c' : nat) (w : world) :
  (c' <= c)%nat -> waiting t c w -> waiting t c' w.
Proof.
  unfold waiting. intros H (Hc & Hi & Ha & Ho).
  split; [lia|]. split; [exact Hi|]. split; assumption.
Qed.

Section Calm.
Variable h : host.
Variable a : args.
Variable t : nat.
Variable s : signum.
Hypothesis Hsig : signal_at h = Some (t, s).
Hypothesis Hbefore : accepts_before h t.
Hypothesis Hfrom : answers_from h t.
Hypothesis Hint : 0 <= interval a <= sleep_limit h.

Lemma due_none_neq (w : world) : due h w = None -> t <> clock w.
Proof.
  unfold due. rewrite Hsig. destruct (Nat.eqb_spec t (clock w)); [discriminate | auto].
Qed.

Lemma due_some_eq (w : world) (s' : signum) : due h w = Some s' -> s' = s /\ t = clock w.
Proof.
  intros H. apply due_at in H. rewrite Hsig in H. inversion H. auto.
Qed.

Lemma waiting_raw (c : nat) (e : event) (w : world) :
  e <> ECall fn_allow_sleep -> e <> ECall fn_on_exit ->
  due h w = None -> waiting t c w ->
  waiting t (S c) (snd (raw h e w)) /\ (clock w < t)%nat.
Proof.
  intros He1 He2 Hd (Hc & Hi & Ha & Ho). apply due_none_neq in Hd.
  unfold waiting. change (trace (snd (raw h e w))) with (trace w ++ [e]).
  rewrite !calls_snoc_other by (apply is_call_other; assumption).
  cbn. split; [|lia]. split; [lia|]. split; [exact Hi|]. split; assumption.
Qed.

Lemma waiting_deliver (c : nat) (s' : signum) (w : world) :
  due h w = Some s' -> waiting t c w ->
  fst (deliver (A := nat) h s' w) = Stop (Raised (SystemExit 0)) /\
  handled_signal t s (snd (deliver (A := nat) h s' w)).
Proof.
  intros Hd (Hc & Hi & Ha & Ho). apply due_some_eq in Hd. destruct Hd as [-> Ht].
  assert (Hh : handled s w = true) by (destruct Hi; destruct s; assumption).
  split.
  - rewrite deliver_fst, Hh. destruct (Hfrom (4 + clock w)%nat) as [v Hv]; [lia|].
    rewrite Hv. reflexivity.
  - split; [|split].
    + pose proof (deliver_clock (A := nat) h s w). lia.
    + destruct (deliver_handlers (A := nat) h s w) as [E1 E2].
      destruct Hi. split; congruence.
    + exists (trace w). rewrite deliver_trace, Hh. auto.
Qed.

Lemma waiting_invariant (c : nat) :
  invariant h (waiting t c) (stopped_waiting t c s)
            (fun e => e <> ECall fn_allow_sleep /\ e <> ECall fn_on_exit).
Proof.
  constructor.
  - intros e w [He1 He2] Hd Hw.
    apply (waiting_le t (S c)); [lia|]. apply waiting_raw; assumption.
  - intros s' w st Hd Hw E. left.
    destruct (waiting_deliver c s' w Hd Hw) as [E' Hh].
    rewrite E' in E. inversion E. auto.
  - intros p w Hw. exact Hw.
  - intros s' w (Hc & [H1 H2] & Ha & Ho). unfold waiting, installed. cbn.
    split; [exact Hc|]. split; [|split; assumption].
    destruct s'; split; auto.
  - intros cls msg w Hw. right. eauto.
  - intros cls msg w [[E _]|[_ Hw]]; [discriminate | exact Hw].
Qed.

Lemma calm_guard (c : nat) (e : event) :
  e <> ECall fn_allow_sleep -> e <> ECall fn_on_exit ->
  hoare (waiting t c) (guard h e)
        (fun r w => match r with
                    | Ok x => waiting t (S c) w /\ (x < t)%nat
                    | Stop st => st = Raised (SystemExit 0) /\ handled_signal t s w
                    end).
Proof.
  intros He1 He2. apply hoare_guard.
  - intros w Hw Hd. apply waiting_raw; assumption.
  - intros w s' Hw Hd. destruct (waiting_deliver c s' w Hd Hw) as [E Hh].
    rewrite E. auto.
Qed.

Lemma calm_print (c : nat) (line : string) :
  hoare (waiting t c) (print (guard h) line) (calm_post t (S c) s).
Proof.
  unfold print. apply hoare_bind with (R := fun _ => waiting t (S c)).
  - eapply hoare_conseq; [| |apply (calm_guard c)]; try discriminate; auto.
    intros [x|st] w; cbn; tauto.
  - intros _ w Hw. exact Hw.
Qed.

Lemma calm_prevent_sleep (c : nat) :
  hoare (waiting t c) (prevent_sleep h (guard h)) (calm_post t (S c) s).
Proof.
  unfold prevent_sleep.
  apply hoare_bind with (R := fun _ => waiting t (S c)).
  { unfold call. apply hoare_bind with (R := fun _ => waiting t (S c)).
    - eapply hoare_conseq; [| |apply (calm_guard c)]; try discriminate; auto.
      intros [x|st] w; cbn; tauto.
    - intros _ w Hw. exact Hw. }
  intros _.
  apply hoare_bind with (R := fun v w => waiting t (S c) w /\ v <> 0).
  { unfold SetThreadExecutionState.
    apply hoare_bind with (R := fun x w => waiting t (S c) w /\ (x < t)%nat).
    - eapply hoare_conseq; [| |apply (calm_guard (S c))]; try discriminate; auto.
      intros [x|st] w; cbn; [|tauto].
      intros [Hw Hx]. split; [|exact Hx]. apply (waiting_le t (S (S c))); [lia | exact Hw].
    - intros x w [Hw Hx]. destruct (Hbefore x Hx) as (v & Hv & Hn).
      rewrite Hv. cbn. auto. }
  intros v w [Hw Hn]. rewrite (proj2 (Z.eqb_neq v 0) Hn). exact Hw.
Qed.

Lemma calm_time_sleep (c : nat) :
  hoare (waiting t c) (time_sleep h (guard h) (inject_Z (interval a)))
        (calm_post t c s).
Proof.
  unfold time_sleep. apply hoare_bind with (R := fun _ => waiting t c).
  - eapply hoare_conseq; [| |apply (calm_guard c)]; try discriminate; auto.
    intros [x|st] w; cbn; [|tauto].
    intros [Hw _]. apply (waiting_le t (S c)); [lia | exact Hw].
  - intros _ w Hw.
    rewrite sleep_convertible_nonneg, sleep_nonneg, sleep_within by lia. exact Hw.
Qed.

Lemma calm_nudge_mouse (c : nat) :
  hoare (waiting t c) (nudge_mouse h (guard h)) (calm_post t c s).
Proof.
  unfold nudge_mouse. apply hoare_bind with (R := fun _ => waiting t c).
  { unfold call. apply hoare_bind with (R := fun _ => waiting t c).
    - eapply hoare_conseq; [| |apply (calm_guard c)]; try discriminate; auto.
      intros [x|st] w; cbn; [|tauto].
      intros [Hw _]. apply (waiting_le t (S c)); [lia | exact Hw].
    - intros _ w Hw. exact Hw. }
  intros _. apply hoare_try_except with (R := fun _ => waiting t c).
  - intros w Hw.
    pose proof (inv_nudge_body h _ _ _ (waiting_invariant c)) as H.
    specialize (H (fun e He => ltac:(destruct e; cbn in He; try tauto; split; discriminate))
                  ltac:(split; discriminate) w Hw).
    destruct (fst (nudge_body h (guard h) w)) as [x|[[code| |cls msg]|sg|]]; cbn in *;
      try exact H;
      try (destruct H as [[E Hh]|[(cls' & msg' & E) _]]; [split; assumption | discriminate]).
    destruct H as [[E _]|[_ Hw']]; [discriminate | exact Hw'].
  - intros msg. eapply hoare_conseq; [| |apply (calm_print c)]; auto.
    intros [x|st] w; cbn; [|tauto].
    apply waiting_le. lia.
Qed.

Lemma calm_cycle (c : nat) :
  hoare (waiting t c) (cycle h a) (calm_post t (S c) s).
Proof.
  unfold cycle. apply hoare_bind with (R := fun _ => waiting t (S c)).
  - apply calm_prevent_sleep.
  - intros _. apply hoare_bind with (R := fun _ => waiting t (S c)).
    + destruct (mouse a); [apply calm_nudge_mouse | intros w Hw; exact Hw].
    + intros _. apply calm_time_sleep.
Qed.

Lemma calm_loop (n : nat) :
  forall c,
  hoare (waiting t c) (while_true n (cycle h a))
        (fun r w => match r with
                    | Stop (Raised (SystemExit 0)) => handled_signal t s w
                    | Stop OutOfFuel => waiting t (c + n) w
                    | _ => False
                    end).
Proof.
  induction n as [|n IH]; intros c; cbn [while_true].
  - intros w Hw. cbn. rewrite Nat.add_0_r. exact Hw.
  - apply hoare_bind with (R := fun _ => waiting t (S c)).
    + intros w Hw. pose proof (calm_cycle c w Hw) as H.
      destruct (fst (cycle h a w)) as [x|st]; cbn in *; [exact H|].
      destruct H as [-> Hh]. exact Hh.
    + intros _ w Hw. specialize (IH (S c) w Hw).
      rewrite Nat.add_succ_r. exact IH.
Qed.

End Calm.

Lemma guard_after (h : host) (t : nat) (s : signum) (e : event) (w : world) :
  signal_at h = Some (t, s) -> (t < clock w)%nat -> guard h e w = raw h e w.
Proof. intros E H. rewrite guard_eq, (due_after h t s w E H). reflexivity. Qed.

Lemma allow_sleep_after (h : host) (t : nat) (s : signum) (w : world) :
  signal_at h = Some (t, s) -> (t < clock w)%nat ->
  allow_sleep h (guard h) w =
  (match kernel32 h (S (clock w)) with
   | Returns _ => Ok tt
   | Throws cls msg => Stop (Raised (Exception cls msg))
   end,
   after h (ESetThreadExecutionState ES_CONTINUOUS) (after h (ECall fn_allow_sleep) w)).
Proof.
  intros E H. unfold_script.
  rewrite (guard_after h t s _ _ E) by exact H. cbn.
  rewrite (guard_after h t s _ _ E) by (cbn; lia). cbn.
  destruct (kernel32 h (S (clock w))); reflexivity.
Qed.

Lemma startup_trace_length (a : args) : (5 <= List.length (startup_trace a) <= 6)%nat.
Proof. unfold startup_trace. destruct (mouse a); cbn; lia. Qed.

Lemma startup_trace_quiet (a : args) :
  calls fn_allow_sleep (startup_trace a) = 0%nat /\
  calls fn_on_exit (startup_trace a) = 0%nat.
Proof. unfold startup_trace. destruct (mouse a); split; reflexivity. Qed.

Lemma startup_runs (h : host) (a : args) (p : Z * Z) :
  signal_not_before h (List.length (startup_trace a)) ->
  (exists v, kernel32 h 3 = Returns v /\ v <> 0) ->
  exists w,
    startup h a (boot p) = (Ok tt, w) /\
    trace w = startup_trace a /\
    clock w = List.length (startup_trace a) /\
    installed w.
Proof.
  intros Hs (v & Hv & Hn). unfold startup, startup_trace, installed in *.
  unfold_script. unfold boot.
  destruct (mouse a); cbn in Hs.
  - raw_step Hs. raw_step Hs. raw_step Hs. raw_step Hs.
    rewrite Hv. cbn. rewrite (proj2 (Z.eqb_neq v 0) Hn). cbn.
    raw_step Hs. raw_step Hs. eexists. split; [reflexivity|]. cbn. auto.
  - raw_step Hs. raw_step Hs. raw_step Hs. raw_step Hs.
    rewrite Hv. cbn. rewrite (proj2 (Z.eqb_neq v 0) Hn). cbn.
    raw_step Hs. eexists. split; [reflexivity|]. cbn. auto.
Qed.

(** A signal that arrives while the loop runs: the handler exits with
    status 0, and the finally clause releases once more. *)
Lemma signal_in_loop (h : host) (a : args) (p : Z * Z) (n t : nat) (s : signum) :
  signal_at h = Some (t, s) ->
  (List.length (startup_trace a) <= t < List.length (startup_trace a) + n)%nat ->
  accepts_before h t ->
  answers_from h t ->
  0 <= interval a <= sleep_limit h ->
  exists pre,
    fst (run h a p n) = Stop (Raised (SystemExit 0)) /\
    trace (snd (run h a p n)) =
      pre ++ ESignal s :: handler_events
          ++ [ECall fn_allow_sleep; ESetThreadExecutionState ES_CONTINUOUS] /\
    calls fn_allow_sleep pre = 0%nat /\ calls fn_on_exit pre = 0%nat.
Proof.
  intros Hsig Ht Hb Hf Hi.
  pose proof (startup_trace_length a) as Hl.
  destruct (startup_runs h a p) as (w1 & E1 & Ht1 & Hc1 & Hi1).
  { intros t' s' E. rewrite Hsig in E. inversion E. lia. }
  { apply Hb. lia. }
  assert (Hw : waiting t (clock w1) w1).
  { destruct (startup_trace_quiet a). unfold waiting. rewrite Ht1.
    split; [lia|]. split; [exact Hi1|]. split; assumption. }
  pose proof (calm_loop h a t s Hsig Hb Hf Hi n (clock w1) w1 Hw) as H.
  destruct (while_true n (cycle h a) w1) as [r w2] eqn:E2. cbn in H.
  destruct r as [x|[[code| |cls msg]|sg|]]; try contradiction.
  - destruct code as [|c|c]; try contradiction.
    destruct H as (Hc2 & Hi2 & pre & Ht2 & Hp1 & Hp2).
    assert (R : run h a p n =
                (Stop (Raised (SystemExit 0)),
                 after h (ESetThreadExecutionState ES_CONTINUOUS)
                       (after h (ECall fn_allow_sleep) w2))).
    { unfold run, main, running, try_finally, bind. rewrite E1, E2.
      rewrite (allow_sleep_after h t s w2 Hsig Hc2).
      destruct (Hf (S (clock w2))) as [v Hv]; [lia|]. rewrite Hv. reflexivity. }
    exists pre. rewrite R. split; [reflexivity|]. split; [|auto].
    cbn. rewrite Ht2. rewrite <- !app_assoc. reflexivity.
  - destruct H as [Hc _]. lia.
Qed.

(** * The claims *)

(** A start-up whose first assertion is refused. *)
Lemma failed_startup_run (h : host) (a : args) (p : Z * Z) (fuel : nat) :
  kernel32 h 3 = Returns 0 ->
  signal_not_before h 5 ->
  fst (run h a p fuel) = Stop (Raised (SystemExit 1)) /\
  trace (snd (run h a p fuel)) = failed_startup_trace.
Proof.
  intros Hk Hs.
  assert (E : run h a p fuel = (Stop (Raised (SystemExit 1)), snd (run h a p fuel)) /\
              trace (snd (run h a p fuel)) = failed_startup_trace).
  { unfold run, main, startup. unfold_script. unfold boot.
    raw_step Hs. raw_step Hs. raw_step Hs. raw_step Hs.
    rewrite Hk. cbn. raw_step Hs. split; reflexivity. }
  destruct E as [E1 E2]. rewrite E1. auto.
Qed.

(** C3: when the first SetThreadExecutionState call of the process returns 0
    (and no signal interferes with the start-up), the process prints the
    error line and exits with status 1: the trace ends there, so the loop is
    never entered and the call is made once, not retried, for every number
    of cycles the loop would be allowed. *)
Theorem startup_failure_exits_1 (h : host) (a : args) (p : Z * Z) (fuel : nat) :
  kernel32 h 3 = Returns 0 ->
  signal_not_before h 5 ->
  fst (run h a p fuel) = Stop (Raised (SystemExit 1)) /\
  termination_of (fst (run h a p fuel)) = Some (ExitCode 1) /\
  trace (snd (run h a p fuel)) =
    [ESignalInstall SIGINT; ESignalInstall SIGTERM;
     ECall fn_prevent_sleep; ESetThreadExecutionState AWAKE;
     EPrint msg_error] /\
  calls fn_prevent_sleep (trace (snd (run h a p fuel))) = 1%nat.
Proof.
  intros Hk Hs. destruct (failed_startup_run h a p fuel Hk Hs) as [E1 E2].
  rewrite E1, E2. repeat split.
Qed.

Lemma startup_failure_exits_1_witness :
  termination_of (fst (run (refusing_host 100) default_args (0, 0) 10)) = Some (ExitCode 1).
Proof.
  apply (startup_failure_exits_1 (refusing_host 100) default_args (0, 0) 10).
  - reflexivity.
  - apply no_signal_not_before. reflexivity.
Defined.

Lemma calls_none (f : fname) (tr : list event) :
  Forall (fun e => is_call f e = false) tr -> calls f tr = 0%nat.
Proof.
  unfold calls. induction 1 as [|e tr He _ IH]; cbn; [reflexivity|].
  rewrite He. exact IH.
Qed.

(** C4: with --mouse unset, nudge_mouse is never invoked and the pointer is
    never read or moved, whatever the host does, for any interval and for
    any number of loop cycles. *)
Theorem no_nudge_without_mouse (h : host) (i : Z) (p : Z * Z) (n : nat) :
  calls fn_nudge_mouse (trace (snd (run h {| mouse := false; interval := i |} p n))) = 0%nat /\
  Forall (fun e => ~ pointer_event e)
         (trace (snd (run h {| mouse := false; interval := i |} p n))).
Proof.
  pose proof (run_events h {| mouse := false; interval := i |} p n) as H.
  split.
  - apply calls_none. eapply Forall_impl; [|exact H].
    intros e [[He|[Hm _]]|He]; [| discriminate Hm |];
      destruct e as [[]| | | | | | |]; cbn in *; tauto.
  - eapply Forall_impl; [|exact H].
    intros e [[He|[Hm _]]|He] Hp; [| discriminate Hm |];
      destruct e as [[]| | | | | | |]; cbn in *; tauto.
Qed.

(** C8 (as amended): prevent_sleep always passes the same flag word,
    ES_CONTINUOUS | ES_SYSTEM_REQUIRED | ES_DISPLAY_REQUIRED = 0x80000003,
    whatever the command line: every SetThreadExecutionState call of every
    run carries either that word or the release word ES_CONTINUOUS, so
    display sleep is suppressed as unconditionally as system sleep. *)
Theorem prevent_sleep_flags_fixed (h : host) (a : args) (p : Z * Z) (n : nat) (w : world) :
  (exists rest,
      trace (snd (prevent_sleep h (raw h) w)) =
      trace w ++ ECall fn_prevent_sleep :: ESetThreadExecutionState 0x80000003 :: rest) /\
  Forall (fun e => match e with
                   | ESetThreadExecutionState flags =>
                       flags = 0x80000003 \/ flags = ES_CONTINUOUS
                   | _ => True
                   end)
         (trace (snd (run h a p n))) /\
  Z.land 0x80000003 ES_CONTINUOUS = ES_CONTINUOUS /\
  Z.land 0x80000003 ES_SYSTEM_REQUIRED = ES_SYSTEM_REQUIRED /\
  Z.land 0x80000003 ES_DISPLAY_REQUIRED = ES_DISPLAY_REQUIRED.
Proof.
  split; [|split; [|repeat split]].
  - unfold prevent_sleep, call, print, SetThreadExecutionState, bind, raw. cbn.
    destruct (kernel32 h (S (clock w))) as [v|cls msg]; cbn.
    + destruct (Z.eqb v 0); cbn; rewrite <- !app_assoc; cbn; eauto.
    + rewrite <- !app_assoc. cbn. eauto.
  - eapply Forall_impl; [|apply run_events].
    intros e [[He|[_ [He|He]]]|He]; destruct e as [[]| | | | | | |];
      cbn in *; try tauto; try discriminate; auto.
Qed.

(** C8, counterexample: with the default command line, which configures
    nothing, the flag word passed at start-up has the display bit set. *)
Lemma display_required_unconditionally :
  nth_error (trace (snd (run (quiet_host 100) default_args (0, 0) 1))) 3 =
    Some (ESetThreadExecutionState 0x80000003) /\
  Z.land 0x80000003 ES_DISPLAY_REQUIRED <> 0.
Proof. split; [reflexivity | discriminate]. Qed.

(** C5: with --mouse set, a run in which [n] loop cycles have completed has
    invoked nudge_mouse exactly [n] times; and a nudge whose user32 calls
    succeed, with no other pointer input and no signal meanwhile, leaves
    the pointer where it was, after moving it by one unit and back. *)
Theorem nudge_once_per_cycle_and_back (h : host) (i : Z) (p : Z * Z) (n : nat) (w : world) :
  (fst (run h {| mouse := true; interval := i |} p n) = Stop OutOfFuel ->
   calls fn_nudge_mouse (trace (snd (run h {| mouse := true; interval := i |} p n))) = n) /\
  (signal_not_before h (clock w + 5) ->
   accepts (user32 h) ->
   (forall t, pointer_input h t = None) ->
   1 <= sleep_limit h ->
   in_c_long (fst (cursor w)) -> in_c_long (snd (cursor w)) ->
   fst (nudge_mouse h (guard h) w) = Ok tt /\
   cursor (snd (nudge_mouse h (guard h) w)) = cursor w /\
   trace (snd (nudge_mouse h (guard h) w)) =
     trace w ++ [ECall fn_nudge_mouse; EGetCursorPos;
                 ESetCursorPos (fst (cursor w) + 1) (snd (cursor w));
                 ETimeSleep (5 # 100);
                 ESetCursorPos (fst (cursor w)) (snd (cursor w))]).
Proof.
  split.
  - apply run_counts_nudge. reflexivity.
  - apply nudge_round_trip.
Qed.

Lemma nudge_once_per_cycle_and_back_witness :
  calls fn_nudge_mouse
        (trace (snd (run (quiet_host 100) {| mouse := true; interval := 1 |} (5, 7) 3))) = 3%nat /\
  cursor (snd (nudge_mouse (quiet_host 100) (guard (quiet_host 100)) (boot (5, 7)))) = (5, 7).
Proof.
  destruct (nudge_once_per_cycle_and_back (quiet_host 100) 1 (5, 7) 3 (boot (5, 7)))
    as [H1 H2].
  split.
  - apply H1. reflexivity.
  - apply H2.
    + apply no_signal_not_before. reflexivity.
    + apply quiet_user32.
    + reflexivity.
    + cbn. lia.
    + unfold in_c_long. cbn. lia.
    + unfold in_c_long. cbn. lia.
Defined.

Lemma cycle_shape_one_nudge (a : args) (c : list event) :
  mouse a = true -> cycle_shape a c -> calls fn_nudge_mouse c = 1%nat.
Proof.
  intros Hm (mid & -> & Hmid). unfold nudge_part in Hmid. rewrite Hm in Hmid.
  destruct Hmid as (tl & -> & Htl).
  change ([ECall fn_prevent_sleep; ESetThreadExecutionState AWAKE] ++
          (ECall fn_nudge_mouse :: tl) ++ [ETimeSleep (inject_Z (interval a))])
    with ([ECall fn_prevent_sleep; ESetThreadExecutionState AWAKE; ECall fn_nudge_mouse]
            ++ tl ++ [ETimeSleep (inject_Z (interval a))]).
  rewrite !calls_app.
  assert (E : calls fn_nudge_mouse tl = 0%nat).
  { apply calls_none. eapply Forall_impl; [|exact Htl].
    intros e He. destruct e; cbn in *; tauto. }
  rewrite E. reflexivity.
Qed.

(** C6: an exception raised inside the try block of nudge_mouse (any class
    below Exception) is caught and printed as a warning, and nudge_mouse
    returns normally; so the cycle, whatever user32 does, goes on to sleep
    for the interval and ends like a cycle whose nudge succeeded, with
    nudge_mouse entered exactly once (no retry). *)
Theorem nudge_failure_only_warns (h : host) (a : args) (w : world) :
  mouse a = true ->
  signal_not_before h (clock w + 9) ->
  accepts (kernel32 h) ->
  0 <= interval a <= sleep_limit h ->
  (forall cls msg w2,
      nudge_body h (guard h) (after h (ECall fn_nudge_mouse) w)
        = (Stop (Raised (Exception cls msg)), w2) ->
      nudge_mouse h (guard h) w = (Ok tt, after h (EPrint (msg_warn msg)) w2)) /\
  (exists w' c,
      cycle h a w = (Ok tt, w') /\
      trace w' = trace w ++ c /\
      cycle_shape a c /\
      calls fn_nudge_mouse c = 1%nat /\
      last c (ECall fn_on_exit) = ETimeSleep (inject_Z (interval a))).
Proof.
  intros Hm Hs Hk Hi. split.
  - intros cls msg w2 Hb. apply (nudge_exception_warned h w w2 cls msg); [|exact Hb].
    apply (signal_not_before_le h _ _ Hs). lia.
  - destruct (cycle_runs h a w Hs Hk Hi) as (w' & c & E & Ht & Hc & _).
    exists w', c. split; [exact E|]. split; [exact Ht|]. split; [exact Hc|]. split.
    + apply (cycle_shape_one_nudge a); assumption.
    + destruct Hc as (mid & -> & _).
      rewrite app_assoc. apply last_last.
Qed.

(** What [except Exception] does not catch: the SystemExit that the signal
    handler raises when the signal arrives inside the try block of a nudge
    (clock 10 is its first SetCursorPos) ends the process as everywhere
    else in the loop. *)
Example signal_inside_nudge_exits :
  nth_error (trace (snd (run (quiet_host 100) {| mouse := true; interval := 60 |} (0, 0) 1))) 10
    = Some (ESetCursorPos 1 0) /\
  fst (run (signalled_host 10 SIGTERM 100) {| mouse := true; interval := 60 |} (0, 0) 1)
    = Stop (Raised (SystemExit 0)).
Proof. split; reflexivity. Qed.

Lemma nudge_failure_only_warns_witness :
  nudge_mouse (headless_host 100) (guard (headless_host 100)) (boot (0, 0)) =
    (Ok tt,
     after (headless_host 100) (EPrint (msg_warn "no display"))
           (after (headless_host 100) EGetCursorPos
                  (after (headless_host 100) (ECall fn_nudge_mouse) (boot (0, 0))))) /\
  fst (cycle (headless_host 100) {| mouse := true; interval := 60 |} (boot (0, 0))) = Ok tt.
Proof.
  destruct (nudge_failure_only_warns (headless_host 100)
              {| mouse := true; interval := 60 |} (boot (0, 0)))
    as [H1 (w' & c & E & _)].
  - reflexivity.
  - apply no_signal_not_before. reflexivity.
  - intros t. exists 1. split; [reflexivity | discriminate].
  - cbn. lia.
  - split.
    + apply (H1 "OSError"%string "no display"%string). reflexivity.
    + rewrite E. reflexivity.
Defined.

(** C7: as long as the OS accepts the assertion and no signal arrives, every
    loop cycle performs, in this order, prevent_sleep (a
    SetThreadExecutionState call with the awake flags), then the nudge if
    and only if --mouse is set, then time.sleep of exactly the interval; for
    every interval N >= 1 (within what time.sleep accepts) and every [n],
    the loop is still running after [n] such cycles. *)
Theorem loop_cycles_in_order (h : host) (a : args) (p : Z * Z) (n : nat) :
  accepts (kernel32 h) ->
  signal_not_before h (6 + 9 * n) ->
  1 <= interval a <= sleep_limit h ->
  fst (run h a p n) = Stop OutOfFuel /\
  exists tr,
    trace (snd (run h a p n)) = startup_trace a ++ tr /\
    cycles a n tr.
Proof.
  intros Hk Hs Hi.
  destruct (startup_ok h a p) as (w1 & E1 & Ht1 & Hc1 & _); auto.
  { apply (signal_not_before_le h _ _ Hs). lia. }
  destruct (loop_runs h a n Hk) with (w := w1) as (w' & tr & E & Ht & Hcs).
  { lia. }
  { apply (signal_not_before_le h _ _ Hs). lia. }
  unfold run, main, running, try_finally, bind. rewrite E1, E. cbn.
  split; [reflexivity|]. exists tr. rewrite Ht, Ht1. auto.
Qed.

Lemma loop_cycles_in_order_witness :
  fst (run (quiet_host 100) {| mouse := true; interval := 1 |} (0, 0) 3) = Stop OutOfFuel /\
  exists tr,
    trace (snd (run (quiet_host 100) {| mouse := true; interval := 1 |} (0, 0) 3)) =
      startup_trace {| mouse := true; interval := 1 |} ++ tr /\
    cycles {| mouse := true; interval := 1 |} 3 tr.
Proof.
  apply (loop_cycles_in_order (quiet_host 100) {| mouse := true; interval := 1 |} (0, 0) 3).
  - apply quiet_kernel32.
  - apply no_signal_not_before. reflexivity.
  - cbn. lia.
Defined.

(** Once an effect is in the trace it stays there. *)
Lemma trace_keeps_raw (h : host) (e e' : event) (w : world) :
  In e (trace w) -> In e (trace (snd (raw h e' w))).
Proof. intros H. cbn. apply in_or_app. left. exact H. Qed.

Lemma trace_keeps_deliver (h : host) (e : event) (s : signum) (w : world) :
  In e (trace w) -> In e (trace (snd (deliver (A := nat) h s w))).
Proof. intros H. rewrite deliver_trace. apply in_or_app. left. exact H. Qed.

Lemma loop_keeps (h : host) (a : args) (e : event) (n : nat) :
  winv (fun w => In e (trace w)) (while_true n (cycle h a)).
Proof.
  apply (winv_loop h a (fun w => In e (trace w))); auto.
  - intros e' w _ _. apply trace_keeps_raw.
  - intros s w _. apply trace_keeps_deliver.
Qed.

Lemma allow_sleep_keeps (h : host) (a : args) (e : event) :
  winv (fun w => In e (trace w)) (allow_sleep h (guard h)).
Proof.
  apply (winv_allow_sleep h a (fun w => In e (trace w))); auto.
  - intros e' w _ _. apply trace_keeps_raw.
  - intros s w _. apply trace_keeps_deliver.
Qed.

Lemma first_sleep_gets_interval (h : host) (a : args) (p : Z * Z) (n : nat) :
  accepts (kernel32 h) ->
  signal_not_before h 15 ->
  In (ETimeSleep (inject_Z (interval a))) (trace (snd (run h a p (S n)))).
Proof.
  intros Hk Hs. set (e := ETimeSleep (inject_Z (interval a))).
  destruct (startup_ok h a p) as (w1 & E1 & Ht1 & Hc1 & _); auto.
  { apply (signal_not_before_le h _ _ Hs). lia. }
  destruct (cycle_to_sleep h a w1) as (w3 & mid & E & Ht & Hm & Hc & _); auto.
  { apply (signal_not_before_le h _ _ Hs). lia. }
  unfold run, main. unfold bind at 1. rewrite E1.
  apply (hoare_try_finally (fun w => w = w1) (fun _ w => In e (trace w))
           (while_true (S n) (cycle h a)) (allow_sleep h (guard h))
           (fun _ w => In e (trace w))); [| |reflexivity].
  - intros w ->. cbn [while_true]. unfold bind.
    rewrite E, time_sleep_eq by (apply (signal_not_before_le h _ _ Hs); lia).
    assert (Hin : In e (trace (after h e w3))).
    { cbn. apply in_or_app. right. left. reflexivity. }
    destruct (Qle_bool (inject_Z (- PY_TIME_MAX_SECONDS)) (inject_Z (interval a)));
      [destruct (Qle_bool 0 (inject_Z (interval a)));
       [destruct (Qle_bool (inject_Z (interval a)) (inject_Z (sleep_limit h)))|]|];
      try exact Hin.
    pose proof (loop_keeps h a e n _ Hin) as H. unfold e in *.
    destruct (fst (while_true n (cycle h a) _)) as [x|[x|s|]]; exact H.
  - intros r0 w Hw. pose proof (allow_sleep_keeps h a e w Hw) as H.
    destruct (fst (allow_sleep h (guard h) w)); exact H.
Qed.

Lemma negative_interval_run (h : host) (a : args) (p : Z * Z) (n : nat) :
  accepts (kernel32 h) ->
  signal_not_before h 17 ->
  interval a < 0 ->
  fst (run h a p (S n)) = Stop (Raised (refused_sleep (interval a))) /\
  exists mid,
    trace (snd (run h a p (S n))) =
      startup_trace a
        ++ [ECall fn_prevent_sleep; ESetThreadExecutionState AWAKE] ++ mid
        ++ [ETimeSleep (inject_Z (interval a));
            ECall fn_allow_sleep; ESetThreadExecutionState ES_CONTINUOUS].
Proof.
  intros Hk Hs Hi.
  destruct (startup_ok h a p) as (w1 & E1 & Ht1 & Hc1 & _); auto.
  { apply (signal_not_before_le h _ _ Hs). lia. }
  destruct (cycle_to_sleep h a w1) as (w3 & mid & E & Ht & Hm & Hc & _); auto.
  { apply (signal_not_before_le h _ _ Hs). lia. }
  assert (R : run h a p (S n) =
              (Stop (Raised (refused_sleep (interval a))),
               after h (ESetThreadExecutionState ES_CONTINUOUS)
                     (after h (ECall fn_allow_sleep)
                            (after h (ETimeSleep (inject_Z (interval a))) w3)))).
  { unfold run, main, running, try_finally. unfold bind at 1. rewrite E1.
    cbn [while_true]. unfold bind.
    rewrite E, time_sleep_eq by (apply (signal_not_before_le h _ _ Hs); lia).
    unfold refused_sleep.
    destruct (Z.leb_spec (- PY_TIME_MAX_SECONDS) (interval a)) as [Hc'|Hc'].
    - rewrite sleep_convertible by exact Hc'. rewrite sleep_neg by exact Hi.
      rewrite allow_sleep_eq by (apply (signal_not_before_le h _ _ Hs); cbn; lia).
      destruct (Hk (S (clock (after h (ETimeSleep (inject_Z (interval a))) w3))))
        as (v & Hv & _).
      rewrite Hv. reflexivity.
    - rewrite sleep_unconvertible by exact Hc'.
      rewrite allow_sleep_eq by (apply (signal_not_before_le h _ _ Hs); cbn; lia).
      destruct (Hk (S (clock (after h (ETimeSleep (inject_Z (interval a))) w3))))
        as (v & Hv & _).
      rewrite Hv. reflexivity. }
  rewrite R. split; [reflexivity|]. exists mid. cbn. rewrite Ht, Ht1.
  rewrite <- !app_assoc. reflexivity.
Qed.

(** C10: the interval is not validated.  For every integer, 0 and negative
    values included, start-up succeeds and the first cycle passes that very
    value to time.sleep; when it is negative, time.sleep raises (ValueError
    down to -9223372036 seconds, OverflowError below, where the length no
    longer converts), nothing catches the exception, the finally clause
    calls allow_sleep and the process ends with exit status 1. *)
Theorem interval_not_validated (h : host) (m : bool) (i : Z) (p : Z * Z) (n : nat) :
  accepts (kernel32 h) ->
  signal_not_before h 17 ->
  fst (startup h {| mouse := m; interval := i |} (boot p)) = Ok tt /\
  In (ETimeSleep (inject_Z i))
     (trace (snd (run h {| mouse := m; interval := i |} p (S n)))) /\
  (i < 0 ->
   exists e,
     fst (run h {| mouse := m; interval := i |} p (S n)) = Stop (Raised e) /\
     (- PY_TIME_MAX_SECONDS <= i -> e = negative_sleep) /\
     (i < - PY_TIME_MAX_SECONDS -> exists msg, e = Exception "OverflowError" msg) /\
     termination_of (fst (run h {| mouse := m; interval := i |} p (S n)))
       = Some (ExitCode 1) /\
     exists mid,
       trace (snd (run h {| mouse := m; interval := i |} p (S n))) =
         startup_trace {| mouse := m; interval := i |}
           ++ [ECall fn_prevent_sleep; ESetThreadExecutionState AWAKE] ++ mid
           ++ [ETimeSleep (inject_Z i);
               ECall fn_allow_sleep; ESetThreadExecutionState ES_CONTINUOUS]).
Proof.
  intros Hk Hs. split; [|split].
  - destruct (startup_ok h {| mouse := m; interval := i |} p) as (w1 & E1 & _); auto.
    { apply (signal_not_before_le h _ _ Hs). lia. }
    rewrite E1. reflexivity.
  - apply (first_sleep_gets_interval h {| mouse := m; interval := i |} p n Hk).
    apply (signal_not_before_le h _ _ Hs). lia.
  - intros Hi.
    destruct (negative_interval_run h {| mouse := m; interval := i |} p n Hk Hs Hi)
      as [E Ht].
    cbn [interval] in E. exists (refused_sleep i). rewrite E.
    split; [reflexivity|]. unfold refused_sleep.
    destruct (Z.leb_spec (- PY_TIME_MAX_SECONDS) i) as [Hc|Hc].
    + split; [reflexivity|]. split; [lia|]. split; [reflexivity | exact Ht].
    + split; [lia|]. split; [intros _; eexists; reflexivity|].
      split; [reflexivity | exact Ht].
Qed.

Lemma interval_not_validated_witness :
  fst (run (quiet_host 100) {| mouse := false; interval := -5 |} (0, 0) 4)
    = Stop (Raised negative_sleep) /\
  In (ETimeSleep (inject_Z 0))
     (trace (snd (run (quiet_host 100) {| mouse := true; interval := 0 |} (0, 0) 2))) /\
  termination_of
    (fst (run (quiet_host 100) {| mouse := false; interval := -9223372037 |} (0, 0) 4))
    = Some (ExitCode 1).
Proof.
  split; [|split].
  - destruct (interval_not_validated (quiet_host 100) false (-5) (0, 0) 3)
      as (_ & _ & H).
    + apply quiet_kernel32.
    + apply no_signal_not_before. reflexivity.
    + destruct H as (e & E & He & _); [lia|].
      rewrite E, He; [reflexivity | unfold PY_TIME_MAX_SECONDS; lia].
  - apply (interval_not_validated (quiet_host 100) true 0 (0, 0) 1).
    + apply quiet_kernel32.
    + apply no_signal_not_before. reflexivity.
  - destruct (interval_not_validated (quiet_host 100) false (-9223372037) (0, 0) 3)
      as (_ & _ & H).
    + apply quiet_kernel32.
    + apply no_signal_not_before. reflexivity.
    + destruct H as (e & _ & _ & _ & Ht & _); [lia | exact Ht].
Defined.

Lemma calls_after_signal (f : fname) (pre : list event) (s : signum) :
  calls f (pre ++ ESignal s :: handler_events
               ++ [ECall fn_allow_sleep; ESetThreadExecutionState ES_CONTINUOUS]) =
  (calls f pre + match f with fn_allow_sleep => 2 | fn_on_exit => 1 | _ => 0 end)%nat.
Proof. rewrite calls_app. f_equal. destruct f; reflexivity. Qed.

(** The signal arrives just as the finally clause is about to call
    allow_sleep, after the loop was left by an exception: the handler makes
    the only call and its exit replaces the exception. *)
Lemma signal_on_finally (h : host) (a : args) (p : Z * Z) (n : nat)
      (w1 w' : world) (e : exn) (s : signum) (v : Z) :
  startup h a (boot p) = (Ok tt, w1) ->
  while_true n (cycle h a) w1 = (Stop (Raised e), w') ->
  due h w' = Some s ->
  kernel32 h (4 + clock w') = Returns v ->
  fst (run h a p n) = Stop (Raised (SystemExit 0)) /\
  calls fn_on_exit (trace (snd (run h a p n))) = 1%nat /\
  calls fn_allow_sleep (trace (snd (run h a p n))) = 1%nat.
Proof.
  intros E1 E2 Hd Hv.
  assert (Hi1 : installed w1).
  { pose proof (startup_installs h a (boot p) Logic.I) as H. rewrite E1 in H.
    apply H. reflexivity. }
  assert (Hi : installed w').
  { pose proof (inv_loop h _ _ _ (installed_invariant h) a n
                  (fun w H => conj H Logic.I) (fun _ _ => Logic.I) w1 Hi1) as H.
    rewrite E2 in H. apply H. }
  assert (Hr1 : release_count h 0 w1).
  { pose proof (inv_startup h _ _ _ (release_invariant h 0) a (fun _ H => H)
                  (fun e0 He => script_event_no_release a e0 (or_introl He))
                  (boot p)) as H.
    rewrite E1 in H. apply H. split; [reflexivity | left; reflexivity]. }
  assert (Hr : release_count h 0 w').
  { pose proof (inv_loop h _ _ _ (release_invariant h 0) a n (fun _ H => H)
                  (script_event_no_release a) w1 Hr1) as H.
    rewrite E2 in H. apply H. }
  destruct Hr as [Hc Ho]. pose proof (handler_once_due h w' s Hd Ho) as H0.
  assert (Hh : handled s w' = true) by (destruct Hi; destruct s; assumption).
  pose proof (deliver_fst (A := nat) h s w') as F.
  pose proof (deliver_calls (A := nat) h fn_on_exit s w') as C1.
  pose proof (deliver_calls (A := nat) h fn_allow_sleep s w') as C2.
  rewrite Hh, Hv in F. rewrite Hh in C1, C2.
  assert (R : run h a p n = (Stop (Raised (SystemExit 0)), snd (deliver (A := nat) h s w'))).
  { unfold run, main, running, try_finally. unfold bind at 1. rewrite E1, E2.
    unfold allow_sleep, call. unfold bind. rewrite guard_eq, Hd.
    destruct (deliver h s w') as [r w2]. cbn in F. subst r. reflexivity. }
  rewrite R. split; [reflexivity|]. cbn [snd]. lia.
Qed.

(** C1 (as amended): in a shutdown triggered by one signal and handled by
    on_exit, allow_sleep is invoked once by the handler and at most once
    more, by the finally clause of main.  For a signal delivered at any
    stage of the running loop -- SetThreadExecutionState having succeeded
    until then and returning (whatever value) afterwards, and the interval
    being one time.sleep accepts -- the process exits with status 0 after
    exactly two invocations.  allow_sleep is invoked exactly once when the
    signal ends the process during start-up, before the try block is
    entered, and when the signal arrives just as the finally clause is
    about to call allow_sleep after an exception has left the loop. *)
Theorem release_on_signal (h : host) (a : args) (p : Z * Z) (n : nat) :
  ((1 <= calls fn_on_exit (trace (snd (run h a p n))))%nat ->
   calls fn_on_exit (trace (snd (run h a p n))) = 1%nat /\
   (1 <= calls fn_allow_sleep (trace (snd (run h a p n))) <= 2)%nat) /\
  (fst (startup h a (boot p)) <> Ok tt ->
   calls fn_allow_sleep (trace (snd (run h a p n))) =
   calls fn_on_exit (trace (snd (run h a p n)))) /\
  (forall t s,
      signal_at h = Some (t, s) ->
      (List.length (startup_trace a) <= t < List.length (startup_trace a) + n)%nat ->
      accepts_before h t ->
      answers_from h t ->
      0 <= interval a <= sleep_limit h ->
      fst (run h a p n) = Stop (Raised (SystemExit 0)) /\
      calls fn_on_exit (trace (snd (run h a p n))) = 1%nat /\
      calls fn_allow_sleep (trace (snd (run h a p n))) = 2%nat) /\
  (forall w1 w' e s v,
      startup h a (boot p) = (Ok tt, w1) ->
      while_true n (cycle h a) w1 = (Stop (Raised e), w') ->
      due h w' = Some s ->
      kernel32 h (4 + clock w') = Returns v ->
      fst (run h a p n) = Stop (Raised (SystemExit 0)) /\
      calls fn_on_exit (trace (snd (run h a p n))) = 1%nat /\
      calls fn_allow_sleep (trace (snd (run h a p n))) = 1%nat).
Proof.
  split; [|split; [|split]].
  - intros H1.
    destruct (run_release h a p n) as [[Hc Ho]|[Hc Ho]];
      destruct Ho as [Ho|[Ho _]]; lia.
  - intros Hs. unfold run, main, bind.
    pose proof (inv_startup h _ _ _ (release_invariant h 0) a (fun _ H => H)
                  (fun e He => script_event_no_release a e (or_introl He))
                  (boot p)) as H.
    destruct (startup h a (boot p)) as [[[]|st] w1]; cbn in *; [congruence|].
    destruct H as [Hc _]; [split; [reflexivity | left; reflexivity]|]. lia.
  - intros t s Hsig Ht Hb Hf Hi.
    destruct (signal_in_loop h a p n t s Hsig Ht Hb Hf Hi) as (pre & E & Etr & Hp1 & Hp2).
    split; [exact E|]. rewrite Etr, !calls_after_signal. lia.
  - intros w1 w' e s v. apply signal_on_finally.
Qed.

Lemma signalled_accepts_before (t : nat) (s : signum) (limit : Z) (c : nat) :
  accepts_before (signalled_host t s limit) c.
Proof. intros t' _. exists 1. split; [reflexivity | discriminate]. Qed.

Lemma signalled_answers_from (t : nat) (s : signum) (limit : Z) (c : nat) :
  answers_from (signalled_host t s limit) c.
Proof. intros t' _. exists 1. reflexivity. Qed.

Lemma release_on_signal_witness :
  calls fn_allow_sleep
        (trace (snd (run (signalled_host 7 SIGINT 100) default_args (0, 0) 3))) = 2%nat /\
  calls fn_allow_sleep
        (trace (snd (run (signalled_host 2 SIGTERM 100) default_args (0, 0) 3))) = 1%nat /\
  calls fn_allow_sleep
        (trace (snd (run (signalled_host 8 SIGINT 100)
                         {| mouse := false; interval := -5 |} (0, 0) 3))) = 1%nat.
Proof.
  split; [|split].
  - destruct (release_on_signal (signalled_host 7 SIGINT 100) default_args (0, 0) 3)
      as (_ & _ & H & _).
    apply (H 7%nat SIGINT).
    + reflexivity.
    + cbn. lia.
    + apply signalled_accepts_before.
    + apply signalled_answers_from.
    + cbn. lia.
  - destruct (release_on_signal (signalled_host 2 SIGTERM 100) default_args (0, 0) 3)
      as (H1 & H2 & _).
    rewrite H2.
    + apply H1. vm_compute. apply le_n.
    + vm_compute. discriminate.
  - destruct (release_on_signal (signalled_host 8 SIGINT 100)
                {| mouse := false; interval := -5 |} (0, 0) 3)
      as (_ & _ & _ & H).
    apply (H (snd (startup (signalled_host 8 SIGINT 100)
                           {| mouse := false; interval := -5 |} (boot (0, 0))))
             (snd (while_true 3 (cycle (signalled_host 8 SIGINT 100)
                                       {| mouse := false; interval := -5 |})
                     (snd (startup (signalled_host 8 SIGINT 100)
                                   {| mouse := false; interval := -5 |} (boot (0, 0))))))
             negative_sleep SIGINT 1).
    + reflexivity.
    + reflexivity.
    + reflexivity.
    + reflexivity.
Defined.

(** C1, counterexample: SIGINT delivered during the first sleep of the loop
    (clock 7) with the default command line: exit status 0, and allow_sleep
    has been invoked twice. *)
Lemma release_twice_on_signal_in_sleep :
  nth_error (trace (snd (run (quiet_host 100) default_args (0, 0) 3))) 7 =
    Some (ETimeSleep (inject_Z 60)) /\
  fst (run (signalled_host 7 SIGINT 100) default_args (0, 0) 3) =
    Stop (Raised (SystemExit 0)) /\
  calls fn_allow_sleep
        (trace (snd (run (signalled_host 7 SIGINT 100) default_args (0, 0) 3))) = 2%nat.
Proof. repeat split. Qed.

(** C2 (as amended): every way out of the process after a completed
    start-up (an exception leaving the loop, the handler's exit) and every
    exit through the signal handler calls allow_sleep before the process
    ends; when the first prevent_sleep call fails, at start-up and outside
    the try block, the process exits with status 1 and allow_sleep is not
    called. *)
Theorem release_on_exit_paths (h : host) (a : args) (p : Z * Z) (n : nat) :
  (fst (run h a p n) <> Stop OutOfFuel ->
   fst (startup h a (boot p)) = Ok tt \/
   (1 <= calls fn_on_exit (trace (snd (run h a p n))))%nat ->
   (1 <= calls fn_allow_sleep (trace (snd (run h a p n))))%nat) /\
  (kernel32 h 3 = Returns 0 ->
   signal_not_before h 5 ->
   fst (run h a p n) = Stop (Raised (SystemExit 1)) /\
   calls fn_allow_sleep (trace (snd (run h a p n))) = 0%nat).
Proof.
  split.
  - intros Hr [Hs|Ho].
    + apply run_releases_after_startup; assumption.
    + destruct (run_release h a p n) as [[Hc _]|[Hc _]]; lia.
  - intros Hk Hs. destruct (failed_startup_run h a p n Hk Hs) as [E1 E2].
    rewrite E1, E2. split; reflexivity.
Qed.

Lemma release_on_exit_paths_witness :
  (1 <= calls fn_allow_sleep
          (trace (snd (run (quiet_host 100%Z) {| mouse := false; interval := (-1)%Z |}
                           (0%Z, 0%Z) 2))))%nat /\
  calls fn_allow_sleep
        (trace (snd (run (refusing_host 100) default_args (0, 0) 2))) = 0%nat.
Proof.
  split.
  - apply (release_on_exit_paths (quiet_host 100) {| mouse := false; interval := -1 |}
                                 (0, 0) 2).
    + vm_compute. discriminate.
    + left. reflexivity.
  - apply (release_on_exit_paths (refusing_host 100) default_args (0, 0) 2).
    + reflexivity.
    + apply no_signal_not_before. reflexivity.
Defined.

(** C2, counterexample: on a host that refuses the first assertion the
    process exits with status 1 and allow_sleep is never called. *)
Lemma no_release_on_startup_failure :
  termination_of (fst (run (refusing_host 100) default_args (0, 0) 1)) = Some (ExitCode 1) /\
  calls fn_allow_sleep
        (trace (snd (run (refusing_host 100) default_args (0, 0) 1))) = 0%nat /\
  ~ In (ESetThreadExecutionState ES_CONTINUOUS)
       (trace (snd (run (refusing_host 100) default_args (0, 0) 1))).
Proof.
  repeat split. vm_compute. intros H.
  repeat (destruct H as [H|H]; [discriminate H|]). exact H.
Qed.

(** C9 (as amended): a failure of the release call is ignored, not logged:
    allow_sleep discards what SetThreadExecutionState returns, prints
    nothing and raises nothing.  In a signal-triggered shutdown during the
    loop the process exits with status 0 whatever the release calls return
    (0 included), and nothing is printed after the notice that precedes the
    first release. *)
Theorem release_failure_ignored (h : host) (a : args) (p : Z * Z) (n : nat)
        (w : world) (v : Z) :
  (kernel32 h (S (clock w)) = Returns v ->
   allow_sleep h (raw h) w =
   (Ok tt, after h (ESetThreadExecutionState ES_CONTINUOUS)
                 (after h (ECall fn_allow_sleep) w))) /\
  (forall t s,
      signal_at h = Some (t, s) ->
      (List.length (startup_trace a) <= t < List.length (startup_trace a) + n)%nat ->
      accepts_before h t ->
      answers_from h t ->
      0 <= interval a <= sleep_limit h ->
      termination_of (fst (run h a p n)) = Some (ExitCode 0) /\
      exists pre,
        trace (snd (run h a p n)) =
          pre ++ [ESignal s; ECall fn_on_exit; EPrint msg_restoring;
                  ECall fn_allow_sleep; ESetThreadExecutionState ES_CONTINUOUS;
                  ECall fn_allow_sleep; ESetThreadExecutionState ES_CONTINUOUS]).
Proof.
  split.
  - intros Hv. unfold_script. cbn. rewrite Hv. reflexivity.
  - intros t s Hsig Ht Hb Hf Hi.
    destruct (signal_in_loop h a p n t s Hsig Ht Hb Hf Hi) as (pre & E & Etr & _).
    rewrite E, Etr. split; [reflexivity|]. exists pre. reflexivity.
Qed.

Lemma failing_release_accepts (t : nat) (s : signum) (limit : Z) :
  accepts_before (failing_release_host t s limit) t.
Proof.
  intros t' H. exists 1. split; [|discriminate].
  change (kernel32 (failing_release_host t s limit) t')
    with (if Nat.ltb t' t then Returns 1 else Returns 0).
  destruct (Nat.ltb_spec t' t); [reflexivity | lia].
Qed.

Lemma failing_release_answers (t : nat) (s : signum) (limit : Z) :
  answers_from (failing_release_host t s limit) t.
Proof.
  intros t' H. exists 0.
  change (kernel32 (failing_release_host t s limit) t')
    with (if Nat.ltb t' t then Returns 1 else Returns 0).
  destruct (Nat.ltb_spec t' t); [lia | reflexivity].
Qed.

Lemma release_failure_ignored_witness :
  fst (allow_sleep (refusing_host 100) (raw (refusing_host 100)) (boot (0, 0))) = Ok tt /\
  termination_of (fst (run (failing_release_host 7 SIGINT 100) default_args (0, 0) 3))
    = Some (ExitCode 0).
Proof.
  split.
  - destruct (release_failure_ignored (refusing_host 100) default_args (0, 0) 0
                                      (boot (0, 0)) 0) as [H _].
    rewrite H; reflexivity.
  - destruct (release_failure_ignored (failing_release_host 7 SIGINT 100) default_args
                                      (0, 0) 3 (boot (0, 0)) 0) as [_ H].
    apply (H 7%nat SIGINT).
    + reflexivity.
    + cbn. lia.
    + apply failing_release_accepts.
    + apply failing_release_answers.
    + cbn. lia.
Defined.

(** C9, counterexample: both release calls of a signal-triggered shutdown
    (clocks 11 and 13) return 0, the process exits with status 0, and the
    console shows the two informational lines only: the failure is not
    logged. *)
Lemma release_failure_not_logged :
  nth_error (trace (snd (run (failing_release_host 7 SIGINT 100) default_args (0, 0) 3))) 11
    = Some (ESetThreadExecutionState ES_CONTINUOUS) /\
  kernel32 (failing_release_host 7 SIGINT 100) 11 = Returns 0 /\
  nth_error (trace (snd (run (failing_release_host 7 SIGINT 100) default_args (0, 0) 3))) 13
    = Some (ESetThreadExecutionState ES_CONTINUOUS) /\
  kernel32 (failing_release_host 7 SIGINT 100) 13 = Returns 0 /\
  console (trace (snd (run (failing_release_host 7 SIGINT 100) default_args (0, 0) 3)))
    = [EPrint msg_active; EPrint msg_restoring].
Proof. repeat split. Qed.

(** * Further properties of the script *)

(** ** Signals and the registration of the handler *)

Lemma signal_signal_runs (h : host) (s : signum) (c : nat) (w : world) :
  signal_not_before h c -> (clock w < c)%nat ->
  signal_signal (guard h) s w = (Ok tt, snd (install s (after h (ESignalInstall s) w))).
Proof.
  intros Hs Hc. unfold signal_signal, bind. rewrite (guard_before h c _ _ Hs Hc).
  reflexivity.
Qed.

Lemma allow_sleep_python (h : host) :
  inv installed (fun st w => installed w /\ stopped_by_python st) (allow_sleep h (guard h)).
Proof.
  unfold allow_sleep. apply inv_bind.
  - apply (inv_call h _ _ _ (installed_invariant h)). exact Logic.I.
  - intros _. apply inv_bind.
    + apply (inv_SetThreadExecutionState h _ _ _ (installed_invariant h)). exact Logic.I.
    + intros _. apply inv_ret.
Qed.

Lemma running_python (h : host) (a : args) (n : nat) :
  hoare installed (running h a n) (fun r _ => ~ ends_by_signal r).
Proof.
  unfold running.
  apply hoare_try_finally with (R := fun r w => installed w /\ ~ ends_by_signal r).
  - intros w Hw.
    pose proof (inv_loop h _ _ _ (installed_invariant h) a n
                  (fun w H => conj H Logic.I) (fun _ _ => Logic.I) w Hw) as H.
    destruct (fst (while_true n (cycle h a) w)) as [x|[e|s|]]; cbn in *.
    + split; [exact H|]. intros [s E]. discriminate E.
    + destruct H as [Hi He]. split; [exact Hi|]. intros [s E].
      destruct e; cbn in *; try discriminate; contradiction.
    + destruct H as [_ []].
    + intros [s E]. discriminate E.
  - intros r0 w [Hw Hr]. pose proof (allow_sleep_python h w Hw) as H.
    destruct (fst (allow_sleep h (guard h) w)) as [x|st]; [exact Hr|].
    destruct H as [_ He]. intros [s E].
    destruct st as [[]| |]; cbn in *; try discriminate; contradiction.
Qed.

Lemma startup_rest_python (h : host) (a : args) :
  inv installed (fun st w => installed w /\ stopped_by_python st)
      (prevent_sleep h (guard h) ;;
       print (guard h) msg_active ;;
       (if mouse a then print (guard h) (msg_mouse (interval a)) else ret tt)).
Proof.
  apply inv_bind.
  - apply (inv_prevent_sleep h _ _ _ (installed_invariant h)); [|auto].
    intros w H. split; [exact H | exact Logic.I].
  - intros _. apply inv_bind.
    + apply (inv_print h _ _ _ (installed_invariant h)). exact Logic.I.
    + intros _. destruct (mouse a); [|apply inv_ret].
      apply (inv_print h _ _ _ (installed_invariant h)). exact Logic.I.
Qed.

Lemma startup_python (h : host) (a : args) :
  signal_not_before h 2 ->
  hoare (fun w => clock w = 0%nat) (startup h a)
        (fun r w => match r with
                    | Ok _ => installed w
                    | Stop st => stopped_by_python st
                    end).
Proof.
  intros Hs. unfold startup.
  apply hoare_bind with (R := fun _ w => clock w = 1%nat /\ sigint_handled w = true).
  { intros w Hc. rewrite (signal_signal_runs h SIGINT 2) by (auto; lia).
    cbn. auto. }
  intros _. apply hoare_bind with (R := fun _ w => installed w).
  { intros w [Hc Hi]. rewrite (signal_signal_runs h SIGTERM 2) by (auto; lia).
    cbn. split; [exact Hi | reflexivity]. }
  intros _ w Hw. pose proof (startup_rest_python h a w Hw) as H.
  destruct (fst (_ w)) as [x|st]; [exact H | apply H].
Qed.

(** X1: the handlers are registered before anything else (lines 65-66), so
    once the two registrations are done the process is never ended by the
    signal itself: whatever the host does and whenever the signal then
    arrives, the process ends, if it ends, with an exit status of Python
    (through on_exit or an exception), never by KeyboardInterrupt or by the
    default action of SIGTERM. *)
Theorem handled_once_registered (h : host) (a : args) (p : Z * Z) (n : nat) :
  signal_not_before h 2 ->
  ~ ends_by_signal (fst (run h a p n)).
Proof.
  intros Hs. unfold run, main.
  apply (hoare_bind (fun w => clock w = 0%nat) (fun _ => installed)
                    (startup h a) (fun _ => running h a n)
                    (fun r _ => ~ ends_by_signal r)); [| |reflexivity].
  - intros w Hc. pose proof (startup_python h a Hs w Hc) as H.
    destruct (fst (startup h a w)) as [x|st]; [exact H|].
    intros [s E]. destruct st as [[]| |]; cbn in *; try discriminate; contradiction.
  - intros _. apply running_python.
Qed.

Lemma handled_once_registered_witness :
  ~ ends_by_signal (fst (run (signalled_host 2 SIGTERM 100) default_args (0, 0) 3)).
Proof.
  apply (handled_once_registered (signalled_host 2 SIGTERM 100) default_args (0, 0) 3).
  intros t s E. inversion E. lia.
Defined.

(** X2: a signal that arrives before its handler is registered (SIGINT
    before the first signal.signal call, SIGTERM before the second) ends
    the process by that signal: on_exit does not run, nothing is printed,
    neither prevent_sleep nor allow_sleep is called. *)
Theorem signal_before_registration (h : host) (a : args) (p : Z * Z) (n t : nat)
        (s : signum) :
  signal_at h = Some (t, s) ->
  t = 0%nat \/ (t = 1%nat /\ s = SIGTERM) ->
  termination_of (fst (run h a p n)) = Some (BySignal s) /\
  trace (snd (run h a p n)) =
    firstn t [ESignalInstall SIGINT] ++ [ESignal s].
Proof.
  intros Hsig Ht.
  assert (R : run h a p n =
              (Stop (match s with SIGINT => Raised KeyboardInterrupt
                             | SIGTERM => Killed SIGTERM end),
               snd (run h a p n)) /\
              trace (snd (run h a p n)) = firstn t [ESignalInstall SIGINT] ++ [ESignal s]).
  { unfold run, main, startup, signal_signal, bind, guard, boot. rewrite Hsig.
    destruct Ht as [->|[-> ->]]; cbn.
    - unfold deliver. cbn. destruct s; cbn; split; reflexivity.
    - unfold deliver. cbn. split; reflexivity. }
  destruct R as [R1 R2]. split; [|exact R2].
  rewrite R1. destruct s; reflexivity.
Qed.

Lemma signal_before_registration_witness :
  termination_of (fst (run (signalled_host 1 SIGTERM 100) default_args (0, 0) 3))
    = Some (BySignal SIGTERM).
Proof.
  apply (signal_before_registration (signalled_host 1 SIGTERM 100) default_args (0, 0) 3
                                    1 SIGTERM).
  - reflexivity.
  - right. split; reflexivity.
Defined.

(** ** Failures of the assertion *)

Lemma prevent_sleep_refused (h : host) (w : world) :
  signal_not_before h (clock w + 3) ->
  kernel32 h (S (clock w)) = Returns 0 ->
  prevent_sleep h (guard h) w =
  (Stop (Raised (SystemExit 1)),
   after h (EPrint msg_error)
         (after h (ESetThreadExecutionState AWAKE) (after h (ECall fn_prevent_sleep) w))).
Proof.
  intros Hs Hk. unfold_script. raw_step Hs. raw_step Hs. rewrite Hk. cbn.
  raw_step Hs. reflexivity.
Qed.

(** X3: when a reassertion inside the loop is refused (the call returns 0),
    in whatever cycle, the process prints the error line, the finally
    clause calls allow_sleep, and the process exits with status 1: unlike
    the refusal at start-up, this one releases before it leaves. *)
Theorem refused_reassertion_releases (h : host) (a : args) (n : nat) (w : world) (v : Z) :
  signal_not_before h (clock w + 5) ->
  kernel32 h (S (clock w)) = Returns 0 ->
  kernel32 h (4 + clock w) = Returns v ->
  fst (running h a (S n) w) = Stop (Raised (SystemExit 1)) /\
  termination_of (fst (running h a (S n) w)) = Some (ExitCode 1) /\
  trace (snd (running h a (S n) w)) =
    trace w ++ [ECall fn_prevent_sleep; ESetThreadExecutionState AWAKE;
                EPrint msg_error;
                ECall fn_allow_sleep; ESetThreadExecutionState ES_CONTINUOUS].
Proof.
  intros Hs Hk Hv.
  assert (R : running h a (S n) w =
              (Stop (Raised (SystemExit 1)),
               after h (ESetThreadExecutionState ES_CONTINUOUS)
                 (after h (ECall fn_allow_sleep)
                    (after h (EPrint msg_error)
                       (after h (ESetThreadExecutionState AWAKE)
                          (after h (ECall fn_prevent_sleep) w)))))).
  { unfold running, try_finally. cbn [while_true]. unfold cycle, bind.
    rewrite prevent_sleep_refused
      by (auto; apply (signal_not_before_le h _ _ Hs); lia).
    rewrite allow_sleep_eq by (apply (signal_not_before_le h _ _ Hs); cbn; lia).
    cbn [clock after raw snd]. change (S (S (S (S (clock w))))) with (4 + clock w)%nat.
    rewrite Hv. reflexivity. }
  rewrite R. split; [reflexivity|]. split; [reflexivity|].
  cbn. rewrite <- !app_assoc. reflexivity.
Qed.

Lemma refused_reassertion_releases_witness :
  termination_of (fst (running (refusing_host 100) default_args 3 (boot (0, 0))))
    = Some (ExitCode 1).
Proof.
  apply (refused_reassertion_releases (refusing_host 100) default_args 2 (boot (0, 0)) 0).
  - apply no_signal_not_before. reflexivity.
  - reflexivity.
  - reflexivity.
Defined.

(** X4: when the first SetThreadExecutionState call raises instead of
    returning (no such entry point, wrong platform), the exception is not
    caught: the process ends with status 1 and a traceback, the line
    "[ERROR] SetThreadExecutionState failed. Are you on Windows?" is never
    printed, and allow_sleep is not called. *)
Theorem raising_assertion_at_startup (h : host) (a : args) (p : Z * Z) (n : nat)
        (cls msg : string) :
  kernel32 h 3 = Throws cls msg ->
  signal_not_before h 4 ->
  fst (run h a p n) = Stop (Raised (Exception cls msg)) /\
  termination_of (fst (run h a p n)) = Some (ExitCode 1) /\
  trace (snd (run h a p n)) =
    [ESignalInstall SIGINT; ESignalInstall SIGTERM;
     ECall fn_prevent_sleep; ESetThreadExecutionState AWAKE].
Proof.
  intros Hk Hs.
  assert (R : run h a p n =
              (Stop (Raised (Exception cls msg)),
               after h (ESetThreadExecutionState AWAKE)
                 (after h (ECall fn_prevent_sleep)
                    (snd (install SIGTERM
                       (after h (ESignalInstall SIGTERM)
                          (snd (install SIGINT
                             (after h (ESignalInstall SIGINT) (boot p)))))))))).
  { unfold run, main, startup. unfold_script. unfold boot.
    raw_step Hs. raw_step Hs. raw_step Hs. raw_step Hs.
    rewrite Hk. reflexivity. }
  rewrite R. repeat split.
Qed.

Lemma raising_assertion_at_startup_witness :
  termination_of (fst (run (raising_host 100) default_args (0, 0) 3)) = Some (ExitCode 1) /\
  console (trace (snd (run (raising_host 100) default_args (0, 0) 3))) = [].
Proof.
  destruct (raising_assertion_at_startup (raising_host 100) default_args (0, 0) 3
              "AttributeError" "function 'SetThreadExecutionState' not found")
    as (_ & H1 & H2).
  - reflexivity.
  - apply no_signal_not_before. reflexivity.
  - split; [exact H1 | rewrite H2; reflexivity].
Defined.

(** ** What a nudge does to the pointer when things go wrong *)

Lemma wrap32_0 : wrap32 0 = 0.
Proof. reflexivity. Qed.

(** X5: nudge_mouse does not look at what GetCursorPos returns.  When that
    call fails quietly (returns 0) the POINT keeps its initial (0, 0), so
    the nudge moves the pointer to (1, 0) and then "restores" it to (0, 0):
    wherever the pointer was, it ends in the corner of the screen, and no
    warning is printed. *)
Theorem failed_read_moves_pointer_to_origin (h : host) (w : world) (v2 v3 : Z) :
  signal_not_before h (clock w + 5) ->
  user32 h (S (clock w)) = Returns 0 ->
  user32 h (2 + clock w) = Returns v2 ->
  user32 h (4 + clock w) = Returns v3 -> v3 <> 0 ->
  1 <= sleep_limit h ->
  fst (nudge_mouse h (guard h) w) = Ok tt /\
  cursor (snd (nudge_mouse h (guard h) w)) = (0, 0) /\
  trace (snd (nudge_mouse h (guard h) w)) =
    trace w ++ [ECall fn_nudge_mouse; EGetCursorPos; ESetCursorPos 1 0;
                ETimeSleep (5 # 100); ESetCursorPos 0 0].
Proof.
  intros Hs H1 H2 H3 Hn Hl. cbn [Nat.add] in H2, H3.
  unfold_script. rewrite pause_convertible, pause_nonneg, (pause_ok _ Hl).
  raw_step Hs. raw_step Hs. rewrite H1. cbn.
  raw_step Hs. rewrite H2. cbn.
  destruct (Z.eqb v2 0); cbn.
  - raw_step Hs. raw_step Hs. rewrite H3. cbn.
    rewrite (proj2 (Z.eqb_neq v3 0) Hn). cbn.
    unfold c_int. rewrite wrap32_0. repeat split. rewrite <- !app_assoc. reflexivity.
  - raw_step Hs. raw_step Hs. rewrite H3. cbn.
    rewrite (proj2 (Z.eqb_neq v3 0) Hn). cbn.
    unfold c_int. rewrite wrap32_0. repeat split. rewrite <- !app_assoc. reflexivity.
Qed.

Lemma failed_read_moves_pointer_to_origin_witness :
  cursor (snd (nudge_mouse (quiet_failure_host 1 100) (guard (quiet_failure_host 1 100))
                           (boot (640, 480)))) = (0, 0).
Proof.
  apply (failed_read_moves_pointer_to_origin (quiet_failure_host 1 100)
                                             (boot (640, 480)) 1 1).
  - apply no_signal_not_before. reflexivity.
  - reflexivity.
  - reflexivity.
  - reflexivity.
  - discriminate.
  - cbn. lia.
Defined.

(** X6: nor does it look at what the restoring SetCursorPos does.  When the
    pointer was read and moved but the second SetCursorPos fails (returns 0
    or raises), the nudge still returns normally and the pointer stays one
    unit to the right of where it was. *)
Theorem failed_restore_leaves_pointer_moved (h : host) (w : world) :
  signal_not_before h (clock w + 6) ->
  (exists v, user32 h (S (clock w)) = Returns v /\ v <> 0) ->
  (exists v, user32 h (2 + clock w) = Returns v /\ v <> 0) ->
  match user32 h (4 + clock w) with Returns v => v = 0 | Throws _ _ => True end ->
  (forall t, pointer_input h t = None) ->
  1 <= sleep_limit h ->
  in_c_long (fst (cursor w)) -> in_c_long (fst (cursor w) + 1) ->
  in_c_long (snd (cursor w)) ->
  fst (nudge_mouse h (guard h) w) = Ok tt /\
  cursor (snd (nudge_mouse h (guard h) w)) = (fst (cursor w) + 1, snd (cursor w)).
Proof.
  intros Hs (v1 & H1 & Hn1) (v2 & H2 & Hn2) H3 Hp Hl Hx Hx1 Hy.
  cbn [Nat.add] in H2, H3.
  destruct (cursor w) as [x y] eqn:Hc. cbn [fst snd] in *.
  unfold_script. rewrite pause_convertible, pause_nonneg, (pause_ok _ Hl).
  raw_step Hs. raw_step Hs. rewrite H1. cbn.
  rewrite (proj2 (Z.eqb_neq v1 0) Hn1). cbn. rewrite !Hp, Hc. cbn.
  raw_step Hs. rewrite H2. cbn.
  rewrite (proj2 (Z.eqb_neq v2 0) Hn2). cbn.
  raw_step Hs. raw_step Hs.
  unfold c_int, c_long. rewrite !(wrap32_small x Hx), !(wrap32_small y Hy).
  rewrite (wrap32_small (x + 1) Hx1).
  destruct (user32 h (S (S (S (S (clock w)))))) as [v3|cls msg]; cbn.
  - subst v3. cbn. rewrite !Hp. split; reflexivity.
  - raw_step Hs. rewrite !Hp. split; reflexivity.
Qed.

Lemma failed_restore_leaves_pointer_moved_witness :
  cursor (snd (nudge_mouse (quiet_failure_host 4 100) (guard (quiet_failure_host 4 100))
                           (boot (640, 480)))) = (641, 480).
Proof.
  apply (failed_restore_leaves_pointer_moved (quiet_failure_host 4 100) (boot (640, 480))).
  - apply no_signal_not_before. reflexivity.
  - exists 1. split; [reflexivity | discriminate].
  - exists 1. split; [reflexivity | discriminate].
  - reflexivity.
  - reflexivity.
  - cbn. lia.
  - unfold in_c_long. cbn. lia.
  - unfold in_c_long. cbn. lia.
  - unfold in_c_long. cbn. lia.
Defined.

(** X7: a nudge undoes pointer movements made while it runs.  Whatever the
    user does to the pointer after GetCursorPos has read it (during the
    move, the 0.05 s pause or just before the restore), the final
    SetCursorPos puts the pointer back where it was read. *)
Theorem nudge_overwrites_pointer_input (h : host) (w : world) :
  signal_not_before h (clock w + 5) ->
  accepts (user32 h) ->
  pointer_input h (clock w) = None ->
  pointer_input h (S (clock w)) = None ->
  1 <= sleep_limit h ->
  in_c_long (fst (cursor w)) -> in_c_long (snd (cursor w)) ->
  fst (nudge_mouse h (guard h) w) = Ok tt /\
  cursor (snd (nudge_mouse h (guard h) w)) = cursor w.
Proof.
  intros Hs Hu Hp0 Hp1 Hl Hx Hy.
  destruct (cursor w) as [x y] eqn:Hc. cbn [fst snd] in *.
  unfold_script. rewrite pause_convertible, pause_nonneg, (pause_ok _ Hl).
  raw_step Hs. raw_step Hs.
  destruct (Hu (S (clock w))) as (v1 & Hv1 & Hn1). rewrite Hv1. cbn.
  rewrite (proj2 (Z.eqb_neq v1 0) Hn1). cbn.
  rewrite Hp0, Hp1, Hc. cbn.
  raw_step Hs.
  destruct (Hu (S (S (clock w)))) as (v2 & Hv2 & Hn2). rewrite Hv2. cbn.
  rewrite (proj2 (Z.eqb_neq v2 0) Hn2). cbn.
  raw_step Hs. raw_step Hs.
  destruct (Hu (S (S (S (S (clock w)))))) as (v3 & Hv3 & Hn3). rewrite Hv3. cbn.
  rewrite (proj2 (Z.eqb_neq v3 0) Hn3). cbn.
  unfold c_int, c_long. rewrite !(wrap32_small x Hx), !(wrap32_small y Hy).
  split; reflexivity.
Qed.

Lemma nudge_overwrites_pointer_input_witness :
  cursor (snd (nudge_mouse (moving_pointer_host 2 (100, 100) 100)
                           (guard (moving_pointer_host 2 (100, 100) 100))
                           (boot (640, 480)))) = (640, 480).
Proof.
  apply (nudge_overwrites_pointer_input (moving_pointer_host 2 (100, 100) 100)
                                        (boot (640, 480))).
  - apply no_signal_not_before. reflexivity.
  - intros t. exists 1. split; [reflexivity | discriminate].
  - reflexivity.
  - reflexivity.
  - cbn. lia.
  - unfold in_c_long. cbn. lia.
  - unfold in_c_long. cbn. lia.
Defined.

(** ** How often the awake state is asserted *)

Lemma prevent_sleep_counts (h : host) (k : nat) :
  hoare (fun w => calls fn_prevent_sleep (trace w) = k) (prevent_sleep h (guard h))
        (fun r w => match r with
                    | Ok _ => calls fn_prevent_sleep (trace w) = S k
                    | Stop st => st <> OutOfFuel
                    end).
Proof.
  pose proof (count_invariant h fn_prevent_sleep (S k) (or_intror eq_refl)) as ISk.
  unfold prevent_sleep.
  apply hoare_bind with (R := fun _ w => calls fn_prevent_sleep (trace w) = S k).
  { unfold call.
    apply hoare_bind with (R := fun _ w => calls fn_prevent_sleep (trace w) = S k).
    - apply hoare_guard.
      + intros w Hk _. cbn. rewrite calls_snoc_same. congruence.
      + intros w s _ _. pose proof (deliver_has_fuel (A := nat) h s w) as Hn.
        destruct (deliver_stops (A := nat) h s w) as [st Hst].
        rewrite Hst in *. congruence.
    - intros _ w Hk. exact Hk. }
  intros _.
  apply hoare_bind with (R := fun _ w => calls fn_prevent_sleep (trace w) = S k).
  { eapply hoare_conseq; [| |apply (inv_SetThreadExecutionState h _ _ _ ISk)].
    - auto.
    - intros [x|st] w; cbn; tauto.
    - discriminate. }
  intros result. destruct (Z.eqb result 0).
  - apply hoare_bind with (R := fun _ w => calls fn_prevent_sleep (trace w) = S k).
    + eapply hoare_conseq; [| |apply (inv_print h _ _ _ ISk)].
      * auto.
      * intros [x|st] w; cbn; tauto.
      * discriminate.
    + intros _ w _. cbn. discriminate.
  - intros w Hk. exact Hk.
Qed.

Lemma cycle_counts_prevent (h : host) (a : args) (k : nat) :
  hoare (fun w => calls fn_prevent_sleep (trace w) = k) (cycle h a)
        (fun r w => match r with
                    | Ok _ => calls fn_prevent_sleep (trace w) = S k
                    | Stop st => st <> OutOfFuel
                    end).
Proof.
  pose proof (count_invariant h fn_prevent_sleep (S k) (or_intror eq_refl)) as ISk.
  unfold cycle.
  apply hoare_bind with (R := fun _ w => calls fn_prevent_sleep (trace w) = S k).
  { apply prevent_sleep_counts. }
  intros _.
  apply hoare_bind with (R := fun _ w => calls fn_prevent_sleep (trace w) = S k).
  { destruct (mouse a); [|intros w Hk; exact Hk].
    apply hoare_conseq with
      (P := fun w => calls fn_prevent_sleep (trace w) = S k)
      (Q := fun r w => match r with
                       | Ok _ => calls fn_prevent_sleep (trace w) = S k
                       | Stop st => calls fn_prevent_sleep (trace w) = S k /\
                                    st <> OutOfFuel
                       end);
      [| |unfold nudge_mouse; apply inv_bind].
    - auto.
    - intros [x|st] w; cbn; tauto.
    - apply (inv_call h _ _ _ ISk). discriminate.
    - intros _. apply (inv_try_except h _ _ _ ISk).
      + apply (inv_nudge_body h _ _ _ ISk); [|discriminate].
        intros e He. destruct e; cbn in He; try tauto; discriminate.
      + intros msg. apply (inv_print h _ _ _ ISk). discriminate. }
  intros _.
  eapply hoare_conseq; [| |apply (inv_time_sleep h _ _ _ ISk)].
  - auto.
  - intros [x|st] w; cbn; tauto.
  - discriminate.
Qed.

Lemma loop_counts_prevent (h : host) (a : args) (n : nat) :
  forall k,
  hoare (fun w => calls fn_prevent_sleep (trace w) = k) (while_true n (cycle h a))
        (fun r w => r = Stop OutOfFuel -> calls fn_prevent_sleep (trace w) = (k + n)%nat).
Proof.
  induction n as [|n IH]; intros k; cbn [while_true].
  - intros w Hk _. cbn. lia.
  - apply hoare_bind with (R := fun _ w => calls fn_prevent_sleep (trace w) = S k).
    + eapply hoare_conseq; [| |apply (cycle_counts_prevent h a k)]; [auto|].
      intros [x|st] w; cbn; [auto | congruence].
    + intros _. eapply hoare_conseq; [| |apply (IH (S k))]; [auto|].
      intros r w H Hr. rewrite (H Hr). lia.
Qed.

Lemma startup_counts_prevent (h : host) (a : args) :
  hoare (fun w => calls fn_prevent_sleep (trace w) = 0%nat) (startup h a)
        (fun r w => match r with
                    | Ok _ => calls fn_prevent_sleep (trace w) = 1%nat
                    | Stop st => st <> OutOfFuel
                    end).
Proof.
  pose proof (count_invariant h fn_prevent_sleep 0 (or_intror eq_refl)) as I0.
  pose proof (count_invariant h fn_prevent_sleep 1 (or_intror eq_refl)) as I1.
  unfold startup.
  apply hoare_bind with (R := fun _ w => calls fn_prevent_sleep (trace w) = 0%nat).
  { eapply hoare_conseq; [| |apply (inv_signal_signal h _ _ _ I0)].
    - auto.
    - intros [x|st] w; cbn; tauto.
    - discriminate. }
  intros _.
  apply hoare_bind with (R := fun _ w => calls fn_prevent_sleep (trace w) = 0%nat).
  { eapply hoare_conseq; [| |apply (inv_signal_signal h _ _ _ I0)].
    - auto.
    - intros [x|st] w; cbn; tauto.
    - discriminate. }
  intros _.
  apply hoare_bind with (R := fun _ w => calls fn_prevent_sleep (trace w) = 1%nat).
  { apply prevent_sleep_counts. }
  intros _.
  apply hoare_bind with (R := fun _ w => calls fn_prevent_sleep (trace w) = 1%nat).
  { eapply hoare_conseq; [| |apply (inv_print h _ _ _ I1)].
    - auto.
    - intros [x|st] w; cbn; tauto.
    - discriminate. }
  intros _. destruct (mouse a); [|intros w Hk; exact Hk].
  eapply hoare_conseq; [| |apply (inv_print h _ _ _ I1)].
  - auto.
  - intros [x|st] w; cbn; tauto.
  - discriminate.
Qed.

(** X8: the awake state is asserted once at start-up and once more in every
    cycle: in a run in which [n] loop cycles have completed, on any host and
    for any command line, prevent_sleep has been called exactly [n + 1]
    times. *)
Theorem prevent_sleep_once_per_cycle (h : host) (a : args) (p : Z * Z) (n : nat) :
  fst (run h a p n) = Stop OutOfFuel ->
  calls fn_prevent_sleep (trace (snd (run h a p n))) = S n.
Proof.
  unfold run, main.
  apply (hoare_bind (fun w => calls fn_prevent_sleep (trace w) = 0%nat)
                    (fun _ w => calls fn_prevent_sleep (trace w) = 1%nat)
                    (startup h a) (fun _ => running h a n)
                    (fun r w => r = Stop OutOfFuel ->
                                calls fn_prevent_sleep (trace w) = S n)).
  - intros w Hk. pose proof (startup_counts_prevent h a w Hk) as H.
    destruct (fst (startup h a w)) as [x|st]; [exact H|].
    intros E. congruence.
  - intros _. unfold running.
    apply hoare_try_finally with (R := fun r0 _ => r0 <> Stop OutOfFuel).
    + intros w Hk. pose proof (loop_counts_prevent h a n 1%nat w Hk) as H.
      destruct (fst (while_true n (cycle h a) w)) as [x|[e|s|]]; auto; discriminate.
    + intros r0 w Hr. pose proof (allow_sleep_has_fuel h w Logic.I) as H.
      destruct (fst (allow_sleep h (guard h) w)) as [x|st]; congruence.
  - reflexivity.
Qed.

Lemma prevent_sleep_once_per_cycle_witness :
  calls fn_prevent_sleep
        (trace (snd (run (headless_host 100) {| mouse := true; interval := 1 |} (0, 0) 4)))
    = 5%nat.
Proof.
  apply (prevent_sleep_once_per_cycle (headless_host 100)
                                      {| mouse := true; interval := 1 |} (0, 0) 4).
  reflexivity.
Defined.

(** ** Exit statuses *)

Lemma exit_reason_grows (st : stop) (w w' : world) (evs : list event) :
  trace w' = trace w ++ evs -> exit_reason st w -> exit_reason st w'.
Proof.
  intros E. destruct st as [[c| |cls msg]|s|]; cbn; auto.
  intros [H|(H & H1 & H2)]; [left; exact H|]. right. rewrite E.
  repeat split; auto; apply in_or_app; left; assumption.
Qed.

Lemma exit_reason_deliver (h : host) (s : signum) (w : world) (st : stop) :
  fst (deliver (A := nat) h s w) = Stop st ->
  exit_reason st (snd (deliver (A := nat) h s w)).
Proof.
  rewrite deliver_fst. unfold exit_reason. rewrite deliver_trace.
  destruct (handled s w).
  - destruct (kernel32 h _); intros E; inversion E; [|exact Logic.I].
    right. split; [reflexivity|].
    split; apply in_or_app; right; cbn; auto.
  - destruct s; intros E; inversion E; exact Logic.I.
Qed.

Lemma exit_invariant (h : host) (st0 : stop) :
  invariant h (exit_reason st0) (fun st w => exit_reason st0 w /\ exit_reason st w)
            (fun _ => True).
Proof.
  constructor.
  - intros e w _ _ H. apply (exit_reason_grows st0 w _ [e]); [reflexivity | exact H].
  - intros s w st _ H E. split.
    + apply (exit_reason_grows st0 w _ _ (deliver_trace h s w)), H.
    + apply exit_reason_deliver, E.
  - intros p w H. exact H.
  - intros s w H. exact H.
  - intros cls msg w H. split; [exact H | exact Logic.I].
  - intros cls msg w [H _]. exact H.
Qed.

Lemma In_calls (f : fname) (tr : list event) :
  In (ECall f) tr -> (1 <= calls f tr)%nat.
Proof.
  intros H. apply in_split in H. destruct H as (l1 & l2 & ->).
  rewrite calls_app. change (ECall f :: l2) with ([ECall f] ++ l2).
  rewrite calls_app. assert (E : calls f [ECall f] = 1%nat) by (destruct f; reflexivity).
  lia.
Qed.

Lemma main_exit_reason (h : host) (a : args) (n : nat) :
  hoare (fun _ => True) (main h a n)
        (fun r w => match r with Ok _ => False | Stop st => exit_reason st w end).
Proof.
  unfold main. apply hoare_bind with (R := fun _ _ => True).
  { intros w _.
    pose proof (inv_startup h _ _ _ (exit_invariant h OutOfFuel) a
                  (fun w _ => conj Logic.I (or_introl eq_refl)) (fun _ _ => Logic.I)
                  w Logic.I) as H.
    destruct (fst (startup h a w)) as [x|st]; [exact Logic.I | apply H]. }
  intros _. unfold running.
  apply hoare_try_finally
    with (R := fun r0 w => match r0 with Ok _ => False | Stop st => exit_reason st w end).
  - apply hoare_while with (I := fun _ => True).
    + intros w _.
      pose proof (inv_cycle h _ _ _ (exit_invariant h OutOfFuel) a
                    (fun w _ => conj Logic.I (or_introl eq_refl)) (fun _ _ => Logic.I)
                    w Logic.I) as H.
      destruct (fst (cycle h a w)) as [x|[e|s|]]; cbn in *; tauto.
    + intros w _. exact Logic.I.
  - intros [x|st0] w Hw; [contradiction|].
    assert (Hinv : inv (exit_reason st0)
                       (fun st w => exit_reason st0 w /\ exit_reason st w)
                       (allow_sleep h (guard h))).
    { unfold allow_sleep. apply inv_bind.
      - apply (inv_call h _ _ _ (exit_invariant h st0)). exact Logic.I.
      - intros _. apply inv_bind.
        + apply (inv_SetThreadExecutionState h _ _ _ (exit_invariant h st0)).
          exact Logic.I.
        + intros _. apply inv_ret. }
    specialize (Hinv w Hw).
    destruct (fst (allow_sleep h (guard h) w)) as [x|st]; [exact Hinv | apply Hinv].
Qed.

Lemma process_parsed (h : host) (a : args) (p : Z * Z) (n : nat) :
  process h (Parsed a) p n = run h a p n.
Proof. reflexivity. Qed.

(** X9: the exit statuses of the process are 0, 1 and 2, and [main] never
    returns normally.  Status 2 is argparse's, for a command line it
    rejects; status 0 is argparse's after [--help], or else the signal
    handler's, reached only after on_exit has been entered and has printed
    its notice; every other end with an exit status is status 1 (the
    refused assertion's sys.exit(1), or an uncaught exception), and
    happens on a parsed command line only. *)
Theorem exit_statuses (h : host) (c : cmdline) (p : Z * Z) (n : nat) (code : Z) :
  termination_of (fst (process h c p n)) = Some (ExitCode code) ->
  (code = 0 \/ code = 1 \/ code = 2) /\
  (forall x, fst (process h c p n) <> Ok x) /\
  (code = 2 -> c = Rejected) /\
  (code = 1 -> exists a, c = Parsed a) /\
  (code = 0 ->
   c = Help \/
   exists a, c = Parsed a /\
             In (ECall fn_on_exit) (trace (snd (process h c p n))) /\
             In (EPrint msg_restoring) (trace (snd (process h c p n)))).
Proof.
  destruct c as [a| |].
  - rewrite process_parsed. intros Ht.
    pose proof (main_exit_reason h a n (boot p) Logic.I) as H.
    fold (run h a p n) in H.
    destruct (fst (run h a p n)) as [x|[[k| |cls msg]|s|]]; cbn in *;
      try contradiction; try discriminate.
    + inversion Ht. subst k.
      destruct H as [->|(-> & H1 & H2)].
      * repeat split; try discriminate; eauto.
      * repeat split; try discriminate; eauto.
    + inversion Ht. subst code. repeat split; try discriminate; eauto.
  - cbn. intros Ht. inversion Ht. subst code.
    repeat split; try discriminate; auto.
  - cbn. intros Ht. inversion Ht. subst code.
    repeat split; try discriminate; auto.
Qed.

Lemma exit_statuses_witness :
  (exists a, Parsed default_args = Parsed a /\
     In (ECall fn_on_exit)
        (trace (snd (process (signalled_host 9 SIGTERM 100) (Parsed default_args) (0, 0) 3))) /\
     In (EPrint msg_restoring)
        (trace (snd (process (signalled_host 9 SIGTERM 100) (Parsed default_args) (0, 0) 3)))) /\
  Rejected = Rejected.
Proof.
  split.
  - destruct (exit_statuses (signalled_host 9 SIGTERM 100) (Parsed default_args) (0, 0) 3 0)
      as (_ & _ & _ & _ & H).
    + reflexivity.
    + destruct (H eq_refl) as [H0|H0]; [discriminate H0 | exact H0].
  - destruct (exit_statuses (quiet_host 100) Rejected (0, 0) 3 2) as (_ & _ & H & _).
    + reflexivity.
    + apply H. reflexivity.
Defined.

(** ** The release is final *)

Lemma unreleased_for_good (w : world) : unreleased w -> released_for_good w.
Proof.
  intros H. exists (trace w), []. rewrite app_nil_r. repeat split; [exact H | constructor].
Qed.

Lemma released_for_good_grows (w w' : world) (evs : list event) :
  trace w' = trace w ++ evs ->
  Forall (fun e => e <> ESetThreadExecutionState AWAKE) evs ->
  released_for_good w -> released_for_good w'.
Proof.
  intros E He (pre & post & Ht & H1 & H2).
  exists pre, (post ++ evs). rewrite E, Ht, app_assoc.
  repeat split; [exact H1 | apply Forall_app; auto].
Qed.

Lemma deliver_events_no_assertion (s : signum) (b : bool) :
  Forall (fun e => e <> ESetThreadExecutionState AWAKE)
         (ESignal s :: (if b then handler_events else [])).
Proof. destruct b; repeat constructor; discriminate. Qed.

Lemma before_release_invariant (h : host) :
  kernel32_returns h ->
  invariant h unreleased
            (fun st w => (is_exception st /\ unreleased w) \/
                         (~ is_exception st /\ released_for_good w))
            (fun e => e <> ESetThreadExecutionState ES_CONTINUOUS).
Proof.
  intros Hk. constructor.
  - intros e w He _ H. unfold unreleased. cbn. apply Forall_app.
    split; [exact H | constructor; [exact He | constructor]].
  - intros s w st _ H E. right. split.
    + intros (cls & msg & ->). rewrite deliver_fst in E.
      destruct (handled s w).
      * destruct (Hk (4 + clock w)%nat) as [v Hv]. rewrite Hv in E. discriminate E.
      * destruct s; discriminate E.
    + apply (released_for_good_grows w _ _ (deliver_trace h s w)).
      * apply deliver_events_no_assertion.
      * apply unreleased_for_good, H.
  - intros p w H. exact H.
  - intros s w H. exact H.
  - intros cls msg w H. left. split; [exists cls, msg; reflexivity | exact H].
  - intros cls msg w [[_ H]|[Hn _]]; [exact H|].
    exfalso. apply Hn. exists cls, msg. reflexivity.
Qed.

Lemma after_release_invariant (h : host) :
  invariant h released_for_good (fun _ => released_for_good)
            (fun e => e <> ESetThreadExecutionState AWAKE).
Proof.
  constructor; auto.
  - intros e w He _ H. apply (released_for_good_grows w _ [e]); auto.
  - intros s w st _ H _.
    apply (released_for_good_grows w _ _ (deliver_trace h s w)); auto.
    apply deliver_events_no_assertion.
Qed.

Lemma script_event_not_release (a : args) (e : event) :
  script_event a e -> e <> ESetThreadExecutionState ES_CONTINUOUS.
Proof.
  intros [He|[_ [He|He]]]; destruct e as [[]| | | | | | |]; cbn in He;
    try tauto; try discriminate.
  subst flags. discriminate.
Qed.

(** X10: as long as SetThreadExecutionState does not raise, the release is
    final: in every run, on every exit path and whenever the signal
    arrives, no assertion (a call with the awake flags) follows a release
    (a call with ES_CONTINUOUS alone), so the last word the process says to
    the power manager is never "stay awake" once it has released. *)
Theorem no_assertion_after_release (h : host) (a : args) (p : Z * Z) (n : nat) :
  kernel32_returns h ->
  released_for_good (snd (run h a p n)).
Proof.
  intros Hk. pose proof (before_release_invariant h Hk) as IB.
  assert (H1 : forall w, unreleased w ->
                 (is_exception (Raised (SystemExit 1)) /\ unreleased w) \/
                 (~ is_exception (Raised (SystemExit 1)) /\ released_for_good w)).
  { intros w H. right. split; [|apply unreleased_for_good, H].
    intros (cls & msg & E). discriminate E. }
  unfold run, main.
  apply (hoare_bind unreleased (fun _ => unreleased)
                    (startup h a) (fun _ => running h a n)
                    (fun _ w => released_for_good w)).
  - intros w Hw.
    pose proof (inv_startup h _ _ _ IB a H1
                  (fun e He => script_event_not_release a e (or_introl He)) w Hw) as H.
    destruct (fst (startup h a w)) as [x|st]; [exact H|].
    destruct H as [[_ H]|[_ H]]; [apply unreleased_for_good, H | exact H].
  - intros _. unfold running.
    apply hoare_try_finally with (R := fun _ => released_for_good).
    + intros w Hw.
      pose proof (inv_loop h _ _ _ IB a n H1 (script_event_not_release a) w Hw) as H.
      destruct (fst (while_true n (cycle h a) w)) as [x|[e|s|]]; cbn in H.
      * apply unreleased_for_good, H.
      * destruct H as [[_ H]|[_ H]]; [apply unreleased_for_good, H | exact H].
      * destruct H as [[_ H]|[_ H]]; [apply unreleased_for_good, H | exact H].
      * destruct H as [H|[[_ H]|[_ H]]];
          [apply unreleased_for_good, H | apply unreleased_for_good, H | exact H].
    + intros r0 w Hw.
      assert (Hinv : inv released_for_good (fun _ => released_for_good)
                         (allow_sleep h (guard h))).
      { unfold allow_sleep. apply inv_bind.
        - apply (inv_call h _ _ _ (after_release_invariant h)). discriminate.
        - intros _. apply inv_bind.
          + apply (inv_SetThreadExecutionState h _ _ _ (after_release_invariant h)).
            discriminate.
          + intros _. apply inv_ret. }
      specialize (Hinv w Hw).
      destruct (fst (allow_sleep h (guard h) w)); exact Hinv.
  - constructor.
Qed.

Lemma no_assertion_after_release_witness :
  released_for_good (snd (run (failing_release_host 7 SIGINT 100) default_args (0, 0) 3)).
Proof.
  apply (no_assertion_after_release (failing_release_host 7 SIGINT 100) default_args (0, 0) 3).
  intros t. unfold failing_release_host, kernel32.
  destruct (Nat.ltb t 7); eauto.
Defined.

(** ** A signal that gets lost *)

Lemma guard_not_yet (h : host) (t : nat) (s : signum) (e : event) (w : world) :
  signal_at h = Some (t, s) -> clock w <> t -> guard h e w = raw h e w.
Proof.
  intros E H. unfold guard. rewrite E.
  destruct (Nat.eqb_spec t (clock w)); [congruence | reflexivity].
Qed.

Lemma guard_now (h : host) (t : nat) (s : signum) (e : event) (w : world) :
  signal_at h = Some (t, s) -> clock w = t -> guard h e w = deliver h s w.
Proof.
  intros E H. unfold guard. rewrite E.
  destruct (Nat.eqb_spec t (clock w)); [reflexivity | congruence].
Qed.

Lemma deliver_raises (h : host) (s : signum) (w : world) (cls msg : string) :
  handled s w = true ->
  kernel32 h (4 + clock w) = Throws cls msg ->
  exists w',
    deliver (A := nat) h s w = (Stop (Raised (Exception cls msg)), w') /\
    trace w' = trace w ++ ESignal s :: handler_events /\
    (clock w < clock w')%nat.
Proof.
  intros Hh Hk.
  pose proof (deliver_fst (A := nat) h s w) as H1.
  pose proof (deliver_trace (A := nat) h s w) as H2.
  pose proof (deliver_clock (A := nat) h s w) as H3.
  rewrite Hh, Hk in H1. rewrite Hh in H2.
  destruct (deliver h s w) as [r w']. cbn in *. subst r.
  exists w'. auto.
Qed.

Ltac not_yet Hsig := rewrite (guard_not_yet _ _ _ _ _ Hsig) by (cbn; lia); cbn.

Ltac user32_ok Hu :=
  match goal with
  | |- context [user32 ?h ?t] =>
      let v := fresh "v" in
      let Hv := fresh "Hv" in
      let Hn := fresh "Hn" in
      destruct (Hu t) as (v & Hv & Hn); rewrite Hv; cbn;
      rewrite (proj2 (Z.eqb_neq v 0) Hn); cbn
  end.

Ltac swallowed Hsig Hh Hk cls msg :=
  rewrite (guard_now _ _ _ _ _ Hsig) by (cbn; lia);
  match goal with
  | |- context [deliver ?h ?s ?w1] =>
      let w' := fresh "w'" in
      let D := fresh "D" in
      let Ht := fresh "Ht" in
      let Hc := fresh "Hc" in
      destruct (deliver_raises h s w1 cls msg) as (w' & D & Ht & Hc);
      [ exact Hh | exact Hk | ];
      rewrite D; cbn;
      rewrite (guard_not_yet _ _ _ _ _ Hsig) by (cbn in Hc; lia); cbn;
      split; [reflexivity|]; rewrite Ht; cbn
  end.

Arguments deliver : simpl never.

(** X11: a signal can be swallowed.  When the signal arrives while the try
    block of nudge_mouse runs (at any of its four effects) and the release
    call inside the handler raises, the exception leaves on_exit before
    sys.exit(0) is reached and is caught by the "except Exception" of
    nudge_mouse: the handler has printed its notice and called allow_sleep,
    but the nudge only warns and returns normally, so the loop goes on. *)
Theorem signal_swallowed_by_nudge (h : host) (w : world) (k : nat) (s : signum)
        (cls msg : string) :
  signal_at h = Some (k + clock w, s)%nat ->
  (1 <= k <= 4)%nat ->
  handled s w = true ->
  kernel32 h (4 + (k + clock w)) = Throws cls msg ->
  accepts (user32 h) ->
  1 <= sleep_limit h ->
  fst (nudge_mouse h (guard h) w) = Ok tt /\
  exists pre,
    trace (snd (nudge_mouse h (guard h) w)) =
      trace w ++ ECall fn_nudge_mouse :: pre
              ++ ESignal s :: handler_events ++ [EPrint (msg_warn msg)].
Proof.
  intros Hsig Hk14 Hh Hk Hu Hl.
  assert (Hcases : (k = 1 \/ k = 2 \/ k = 3 \/ k = 4)%nat) by lia.
  unfold_script. rewrite pause_convertible, pause_nonneg, (pause_ok _ Hl).
  destruct Hcases as [->|[->|[->| ->]]]; cbn [Nat.add] in Hsig, Hk.
  - not_yet Hsig. swallowed Hsig Hh Hk cls msg.
    exists []. unfold handler_events. cbn. rewrite <- !app_assoc. reflexivity.
  - not_yet Hsig. not_yet Hsig. user32_ok Hu.
    swallowed Hsig Hh Hk cls msg.
    exists [EGetCursorPos]. unfold handler_events. cbn. rewrite <- !app_assoc. reflexivity.
  - not_yet Hsig. not_yet Hsig. user32_ok Hu. not_yet Hsig. user32_ok Hu.
    swallowed Hsig Hh Hk cls msg.
    eexists [EGetCursorPos; ESetCursorPos _ _].
    unfold handler_events. cbn. rewrite <- !app_assoc. reflexivity.
  - not_yet Hsig. not_yet Hsig. user32_ok Hu. not_yet Hsig. user32_ok Hu.
    not_yet Hsig.
    swallowed Hsig Hh Hk cls msg.
    eexists [EGetCursorPos; ESetCursorPos _ _; ETimeSleep _].
    unfold handler_events. cbn. rewrite <- !app_assoc. reflexivity.
Qed.

Lemma signal_swallowed_by_nudge_witness :
  fst (nudge_mouse (lost_signal_host 9 SIGINT 100) (guard (lost_signal_host 9 SIGINT 100))
                   (first_nudge_entry (lost_signal_host 9 SIGINT 100)
                                      {| mouse := true; interval := 60 |} (0, 0)))
    = Ok tt.
Proof.
  apply (signal_swallowed_by_nudge
           (lost_signal_host 9 SIGINT 100)
           (first_nudge_entry (lost_signal_host 9 SIGINT 100)
                              {| mouse := true; interval := 60 |} (0, 0))
           1 SIGINT "OSError" "release failed").
  - reflexivity.
  - lia.
  - reflexivity.
  - reflexivity.
  - intros t. exists 1. split; [reflexivity | discriminate].
  - cbn. lia.
Defined.

(** The same at the level of the process: SIGINT arrives during the first
    nudge, the handler's release raises, and after the cycle the process is
    still running, "Restoring normal sleep settings..." on its console. *)
Example lost_signal_run :
  fst (run (lost_signal_host 9 SIGINT 100) {| mouse := true; interval := 60 |} (0, 0) 1)
    = Stop OutOfFuel /\
  console (trace (snd (run (lost_signal_host 9 SIGINT 100)
                           {| mouse := true; interval := 60 |} (0, 0) 1)))
    = [EPrint msg_active; EPrint (msg_mouse 60); EPrint msg_restoring;
       EPrint (msg_warn "release failed")].
Proof. split; reflexivity. Qed.

(** ** The state is held while the process runs *)

Lemma holding_invariant (h : host) :
  kernel32_returns h ->
  invariant h holding
            (fun st w => st <> OutOfFuel /\ (is_exception st -> holding w))
            holding_event.
Proof.
  intros Hk. constructor.
  - intros e w (He1 & He2 & He3) _ (H1 & H2 & H3). unfold holding, unreleased.
    change (trace (snd (raw h e w))) with (trace w ++ [e]).
    rewrite !calls_snoc_other by (apply is_call_other; assumption).
    split; [exact H1|]. split; [exact H2|].
    apply Forall_app. split; [exact H3 | constructor; [exact He3 | constructor]].
  - intros s w st _ _ E. rewrite deliver_fst in E. split.
    + destruct (handled s w); [|destruct s]; inversion E; discriminate.
    + intros (cls & msg & ->). destruct (handled s w).
      * destruct (Hk (4 + clock w)%nat) as [v Hv]. rewrite Hv in E. discriminate E.
      * destruct s; discriminate E.
  - intros p w H. exact H.
  - intros s w H. exact H.
  - intros cls msg w H. split; [discriminate | auto].
  - intros cls msg w [_ H]. apply H. exists cls, msg. reflexivity.
Qed.

Lemma script_event_holding (a : args) (e : event) : script_event a e -> holding_event e.
Proof.
  intros He. destruct (script_event_no_release a e He) as [H1 H2].
  split; [exact H1|]. split; [exact H2|]. apply (script_event_not_release a), He.
Qed.

(** X12: as long as SetThreadExecutionState does not raise, the awake state
    is held for as long as the process runs: in a run that is still in its
    loop after any number of cycles, neither the handler nor allow_sleep
    has been entered and no release call has been made; allow_sleep is only
    ever called on the way out. *)
Theorem no_release_while_running (h : host) (a : args) (p : Z * Z) (n : nat) :
  kernel32_returns h ->
  fst (run h a p n) = Stop OutOfFuel ->
  calls fn_allow_sleep (trace (snd (run h a p n))) = 0%nat /\
  calls fn_on_exit (trace (snd (run h a p n))) = 0%nat /\
  ~ In (ESetThreadExecutionState ES_CONTINUOUS) (trace (snd (run h a p n))).
Proof.
  intros Hk Hr. pose proof (holding_invariant h Hk) as IH.
  assert (H1 : forall w, holding w ->
                 Raised (SystemExit 1) <> OutOfFuel /\
                 (is_exception (Raised (SystemExit 1)) -> holding w)).
  { intros w H. split; [discriminate | auto]. }
  assert (Hhold : holding (snd (run h a p n))).
  { revert Hr. unfold run, main.
    apply (hoare_bind holding (fun _ => holding)
                      (startup h a) (fun _ => running h a n)
                      (fun r w => r = Stop OutOfFuel -> holding w)).
    - intros w Hw.
      pose proof (inv_startup h _ _ _ IH a H1
                    (fun e He => script_event_holding a e (or_introl He)) w Hw) as H.
      destruct (fst (startup h a w)) as [x|st]; [exact H|].
      destruct H as [H _]. intros E. congruence.
    - intros _. unfold running.
      apply hoare_try_finally with (R := fun r0 _ => r0 <> Stop OutOfFuel).
      + intros w Hw.
        pose proof (inv_loop h _ _ _ IH a n H1 (script_event_holding a) w Hw) as H.
        destruct (fst (while_true n (cycle h a) w)) as [x|[e|s|]]; cbn in H;
          try discriminate.
        intros _. destruct H as [H|[H _]]; [exact H | congruence].
      + intros r0 w Hr0. pose proof (allow_sleep_has_fuel h w Logic.I) as H.
        destruct (fst (allow_sleep h (guard h) w)) as [x|st]; congruence.
    - split; [reflexivity|]. split; [reflexivity | constructor]. }
  destruct Hhold as (Ha & Ho & Hu). split; [exact Ha|]. split; [exact Ho|].
  intros Hin. unfold unreleased in Hu. rewrite Forall_forall in Hu.
  apply (Hu _ Hin). reflexivity.
Qed.

Lemma no_release_while_running_witness :
  calls fn_allow_sleep
        (trace (snd (run (quiet_failure_host 9 100) {| mouse := true; interval := 2 |}
                         (3, 4) 5))) = 0%nat.
Proof.
  apply (no_release_while_running (quiet_failure_host 9 100)
                                  {| mouse := true; interval := 2 |} (3, 4) 5).
  - intros t. exists 1. reflexivity.
  - reflexivity.
Defined.
